(** * Film dashboard (app.py): the data pipeline and its specification

    The script loads a CSV into a pandas table, normalises the column
    names, filters the rows by genre and year, derives a censor group per
    row and hands five derived samples to the plotting layer.  This file
    embeds that pipeline -- everything up to the data handed to a plot --
    and proves the properties the specification states about it.

    Conventions of the embedding:
    - a Python [str] is a [string]; the text of the data set is ASCII, and
      the character classes below ([isspace], [lower], [upper]) are those
      of Python on the ASCII range;
    - a missing cell (pandas [NaN] / [None]) is [None] in a typed column,
      and the float NaN in a float column;
    - a Python exception is a value of [exn]; code that may raise returns
      a [result]. *)

From Stdlib Require Import List Bool Arith ZArith Lia Ascii String.
From Stdlib Require Import Permutation Sorted.
From Stdlib Require Import Floats.SpecFloat.
Import ListNotations.

Local Open Scope string_scope.

(** ** Exceptions *)

Inductive exn : Type :=
| KeyError (key : string)
| AttributeError
| ValueError.

Inductive result (A : Type) : Type :=
| Ok (a : A)
| Raise (e : exn).
Arguments Ok {A} a.
Arguments Raise {A} e.

Definition bind {A B : Type} (m : result A) (k : A -> result B) : result B :=
  match m with
  | Ok a => k a
  | Raise e => Raise e
  end.

Notation "x <- m ;; k" := (bind m (fun x => k))
  (at level 61, m at next level, right associativity).

(** ** Python string methods *)

Module Str.

(** [str.isspace] on one ASCII character: TAB, LF, VT, FF, CR, the four
    separators FS, GS, RS, US, and the space. *)
Definition isspace (c : ascii) : bool :=
  let n := nat_of_ascii c in
  (((9 <=? n) && (n <=? 13)) || ((28 <=? n) && (n <=? 32)))%nat.

Definition lower_char (c : ascii) : ascii :=
  let n := nat_of_ascii c in
  if ((65 <=? n) && (n <=? 90))%nat then ascii_of_nat (n + 32) else c.

Definition upper_char (c : ascii) : ascii :=
  let n := nat_of_ascii c in
  if ((97 <=? n) && (n <=? 122))%nat then ascii_of_nat (n - 32) else c.

Fixpoint map (f : ascii -> ascii) (s : string) : string :=
  match s with
  | EmptyString => EmptyString
  | String c s' => String (f c) (map f s')
  end.

(** [s.lower()] and [s.upper()] *)
Definition lower : string -> string := map lower_char.
Definition upper : string -> string := map upper_char.

(** [s.lstrip()]: drop the leading whitespace. *)
Fixpoint lstrip (s : string) : string :=
  match s with
  | EmptyString => EmptyString
  | String c s' => if isspace c then lstrip s' else s
  end.

(** [s.rstrip()]: drop the trailing whitespace. *)
Fixpoint rstrip (s : string) : string :=
  match s with
  | EmptyString => EmptyString
  | String c s' =>
      match rstrip s' with
      | EmptyString => if isspace c then EmptyString else String c EmptyString
      | t => String c t
      end
  end.

(** [s.strip()] *)
Definition strip (s : string) : string := rstrip (lstrip s).

(** [old] is a prefix of [s] ([s.startswith(old)]). *)
Fixpoint startswith (old s : string) : bool :=
  match old, s with
  | EmptyString, _ => true
  | String a old', String b s' => Ascii.eqb a b && startswith old' s'
  | String _ _, EmptyString => false
  end.

(** [s.replace(old, new)] for a non-empty [old]: scan from the left; at an
    occurrence of [old] emit [new] and jump over the occurrence ([skip]
    counts the characters of it still to jump over). *)
Fixpoint replace_from (skip : nat) (old new s : string) : string :=
  match s with
  | EmptyString => EmptyString
  | String c s' =>
      match skip with
      | S k => replace_from k old new s'
      | O =>
          if startswith old s
          then new ++ replace_from (String.length old - 1) old new s'
          else String c (replace_from 0 old new s')
      end
  end.

Definition replace (old new s : string) : string := replace_from 0 old new s.

(** [x in xs] for a list of strings. *)
Definition mem (x : string) (xs : list string) : bool :=
  existsb (String.eqb x) xs.

(** [stripped s]: neither end of [s] is whitespace. *)
Definition stripped (s : string) : Prop := lstrip s = s /\ rstrip s = s.

(** [s] without the occurrences of the character [a]. *)
Fixpoint remove_char (a : ascii) (s : string) : string :=
  match s with
  | EmptyString => EmptyString
  | String c s' => if Ascii.eqb a c then remove_char a s' else String c (remove_char a s')
  end.

End Str.

(** ** Loader: column-name normalisation (line 21)

    [df.columns.str.strip().str.lower().str.replace(" ", "_")] *)

Definition normalize_name (c : string) : string :=
  Str.replace " " "_" (Str.lower (Str.strip c)).

(** What [normalize_name] does to one character of the stripped name. *)
Definition normalize_char (c : ascii) : ascii :=
  let c := Str.lower_char c in if Ascii.eqb " " c then "_"%char else c.

Definition normalize (cols : list string) : list string :=
  List.map normalize_name cols.

(** ** Field normaliser: [clean_censor] (lines 56-67)

    A cell of the [censor] column as pandas hands it to [apply]: missing,
    a text, or -- when every value of the column is a number -- an
    integer. *)

Inductive cell : Type :=
| NaN
| Text (s : string)
| Int (z : Z).

(** [pd.isna(x)] on a scalar *)
Definition isna (x : cell) : bool :=
  match x with
  | NaN => true
  | _ => false
  end.

(** [x.strip()] on a cell that is not missing: only [str] has the method. *)
Definition cell_strip (x : cell) : result string :=
  match x with
  | Text s => Ok (Str.strip s)
  | _ => Raise AttributeError
  end.

Definition clean_censor (x : cell) : result string :=
  if isna x then Ok "Unknown"
  else
    x <- cell_strip x ;;
    let x := Str.upper x in
    if Str.mem x ["U"; "G"] then Ok "All Ages"
    else if Str.mem x ["UA"; "PG"; "PG-13"] then Ok "Parental Guidance"
    else if Str.mem x ["A"; "R"] then Ok "Adults Only"
    else Ok "Unknown".

(** The four values of a censor group. *)
Definition censor_groups : list string :=
  ["All Ages"; "Parental Guidance"; "Adults Only"; "Unknown"].

(** The classification table of the specification: the text [t] (trimmed
    and upper-cased) belongs to the group [g]. *)
Definition censor_table (t g : string) : Prop :=
  ((t = "U" \/ t = "G") /\ g = "All Ages")
  \/ ((t = "UA" \/ t = "PG" \/ t = "PG-13") /\ g = "Parental Guidance")
  \/ ((t = "A" \/ t = "R") /\ g = "Adults Only")
  \/ (~ In t ["U"; "G"; "UA"; "PG"; "PG-13"; "A"; "R"] /\ g = "Unknown").

(** [clean_censor] returns one of the four groups. *)
Definition returns_group (x : cell) : Prop :=
  exists g, clean_censor x = Ok g /\ In g censor_groups.

(** ** Sorting *)

Section StableSort.
Context {A : Type}.
Variable le : A -> A -> bool.

(** [x] goes in front of the first element it does not exceed: among
    equal keys, [x] stays ahead of the elements that followed it. *)
Fixpoint insert (x : A) (l : list A) : list A :=
  match l with
  | [] => [x]
  | y :: l' => if le x y then x :: l else y :: insert x l'
  end.

(** A stable sort.  It stands for Python's [list.sort], for numpy's
    mergesort, and for numpy's quicksort on the short arrays (16 elements
    or fewer, which it sorts by insertion) that the top-N selection hands
    to it: a stable sort has one result, whatever the algorithm. *)
Fixpoint stable_sort (l : list A) : list A :=
  match l with
  | [] => []
  | x :: l' => insert x (stable_sort l')
  end.
End StableSort.

(** [l] is in order for [le]: each element may stand before every later
    one. *)
Definition sorted_by {A : Type} (le : A -> A -> bool) (l : list A) : Prop :=
  StronglySorted (fun a b => le a b = true) l.

(** The comparison [le] read backwards. *)
Definition converse {A : Type} (le : A -> A -> bool) : A -> A -> bool :=
  fun a b => le b a.


(** ** Data model

    A row carries the columns the script reads or writes.  Which of them
    the table really has is recorded in [columns]; the value of a field
    whose column is absent is never read by code that checks the column
    first.  Float columns hold IEEE 754 binary64 values, with the float NaN
    for a missing cell. *)

Definition float : Type := spec_float.

Record Row : Type := {
  movie_title : option string;
  main_genre : option string;
  year : option Z;
  rating : float;
  runtime : float;
  total_gross : option string;
  censor : cell;
  (* derived columns, written by the script *)
  censor_group : cell;
  total_gross_millions : option float
}.

Record DataFrame : Type := {
  columns : list string;
  rows : list Row
}.

(** [c in df.columns] *)
Definition has_column (c : string) (df : DataFrame) : bool :=
  Str.mem c (columns df).

(** [len(df)] *)
Definition len (df : DataFrame) : nat := List.length (rows df).

(** [series.dropna()] on a column with optional cells *)
Fixpoint dropna {A : Type} (col : list (option A)) : list A :=
  match col with
  | [] => []
  | Some a :: col' => a :: dropna col'
  | None :: col' => dropna col'
  end.

(** [df[mask]]: the rows whose mask entry is [True], in the order of the
    table. *)
Fixpoint boolean_index (rs : list Row) (mask : list bool) : list Row :=
  match rs, mask with
  | r :: rs', b :: mask' =>
      if b then r :: boolean_index rs' mask' else boolean_index rs' mask'
  | _, _ => []
  end.

Definition getitem_mask (df : DataFrame) (mask : list bool) : DataFrame :=
  {| columns := columns df; rows := boolean_index (rows df) mask |}.

(** ** Filter engine (lines 31-51) *)

(** One entry of [df['main_genre'] == selected]: a missing cell is equal
    to nothing. *)
Definition genre_eq (selected : string) (g : option string) : bool :=
  match g with
  | Some s => String.eqb s selected
  | None => false
  end.

(** One entry of [(df['year'] >= lo) & (df['year'] <= hi)]: a comparison
    with a missing cell is [False]. *)
Definition year_between (lo hi : Z) (y : option Z) : bool :=
  match y with
  | Some v => ((lo <=? v) && (v <=? hi))%Z
  | None => false
  end.

(** [series.unique()]: the distinct values, in order of first appearance;
    [eqb] is the equality of the values. *)
Fixpoint unique {A : Type} (eqb : A -> A -> bool) (l : list A) : list A :=
  match l with
  | [] => []
  | x :: l' => x :: List.filter (fun y => negb (eqb y x)) (unique eqb l')
  end.

(** Lines 32-34: the options of the genre select box. *)
Definition main_genres (df : DataFrame) : list string :=
  "All" :: stable_sort String.leb
             (unique String.eqb (dropna (List.map main_genre (rows df)))).

(** Lines 45-46: [int(df['year'].min())] and [int(df['year'].max())];
    [min] and [max] skip missing cells and are NaN when nothing is left,
    which [int] refuses. *)
Definition year_bounds (df : DataFrame) : result (Z * Z) :=
  match dropna (List.map year (rows df)) with
  | [] => Raise ValueError
  | y :: ys => Ok (fold_left Z.min ys y, fold_left Z.max ys y)
  end.

(** The filter state: the values the two sidebar widgets return. *)
Record FilterState : Type := {
  selected_main_genre : string;
  selected_year_range : Z * Z
}.

(** Lines 31-41 *)
Definition genre_filter (selected : string) (df : DataFrame) : DataFrame :=
  if has_column "main_genre" df then
    if String.eqb selected "All" then df
    else getitem_mask df (List.map (fun r => genre_eq selected (main_genre r)) (rows df))
  else df.

(** Lines 44-51; [df] is the unfiltered table, whose columns are tested. *)
Definition year_filter (range : Z * Z) (df df_filtered : DataFrame) : DataFrame :=
  if has_column "year" df then
    getitem_mask df_filtered
      (List.map (fun r => year_between (fst range) (snd range) (year r)) (rows df_filtered))
  else df_filtered.

Definition applyFilters (df : DataFrame) (st : FilterState) : DataFrame :=
  let df_filtered := genre_filter (selected_main_genre st) df in
  year_filter (selected_year_range st) df df_filtered.

(** The sidebar as the script runs it: the widgets are the user, who picks
    one of the offered options and a range within the bounds. *)
Record Sidebar : Type := {
  selectbox : list string -> string;
  slider : Z -> Z -> Z * Z
}.

Definition sidebar_state (ui : Sidebar) (df : DataFrame) : result FilterState :=
  let genre :=
    if has_column "main_genre" df then selectbox ui (main_genres df) else "All" in
  if has_column "year" df then
    b <- year_bounds df ;;
    Ok {| selected_main_genre := genre;
          selected_year_range := slider ui (fst b) (snd b) |}
  else
    Ok {| selected_main_genre := genre; selected_year_range := (0%Z, 0%Z) |}.

(** Lines 31-51 as one block. *)
Definition filter_block (ui : Sidebar) (df : DataFrame) : result DataFrame :=
  st <- sidebar_state ui df ;;
  Ok (applyFilters df st).

(** The predicates of the specification: which rows a filter state keeps. *)
Definition genre_ok (st : FilterState) (r : Row) : Prop :=
  selected_main_genre st = "All" \/ main_genre r = Some (selected_main_genre st).

Definition year_ok (st : FilterState) (r : Row) : Prop :=
  exists y, year r = Some y /\
    (fst (selected_year_range st) <= y <= snd (selected_year_range st))%Z.

(** [l1] is [l2] with some elements left out: same elements, same order. *)
Inductive subseq {A : Type} : list A -> list A -> Prop :=
| subseq_nil : subseq [] []
| subseq_skip x l1 l2 : subseq l1 l2 -> subseq l1 (x :: l2)
| subseq_keep x l1 l2 : subseq l1 l2 -> subseq (x :: l1) (x :: l2).

(** The row test the two filters amount to on the table [df]. *)
Definition keeps (df : DataFrame) (st : FilterState) (r : Row) : bool :=
  (if has_column "main_genre" df
   then String.eqb (selected_main_genre st) "All"
        || genre_eq (selected_main_genre st) (main_genre r)
   else true)
  &&
  (if has_column "year" df
   then year_between (fst (selected_year_range st)) (snd (selected_year_range st)) (year r)
   else true).

(** [g] is the genre of some row of [df]. *)
Definition observed_genre (df : DataFrame) (g : string) : Prop :=
  exists r, In r (rows df) /\ main_genre r = Some g.

Definition ascending (l : list string) : Prop := sorted_by String.leb l.

(** ** Floats

    Python floats and pandas float columns are IEEE 754 binary64 values:
    [spec_float] with 53 bits of precision and the largest exponent 1024,
    every operation rounding to nearest, ties to even. *)

Module F.

Definition prec : Z := 53.
Definition emax : Z := 1024.

Definition nan : float := S754_nan.

Definition is_nan (f : float) : bool :=
  match f with
  | S754_nan => true
  | _ => false
  end.

Definition add : float -> float -> float := SFadd prec emax.
Definition sub : float -> float -> float := SFsub prec emax.
Definition mul : float -> float -> float := SFmul prec emax.
Definition div : float -> float -> float := SFdiv prec emax.

Definition eqb : float -> float -> bool := SFeqb.
Definition ltb : float -> float -> bool := SFltb.
Definition leb : float -> float -> bool := SFleb.

(** The float of an integer (rounded when it has more than 53 bits). *)
Definition of_Z (z : Z) : float := binary_normalize prec emax z 0 false.

(** The float nearest to the quotient [n / d] of two integers, [d > 0];
    the sign of a zero is [neg]. *)
Definition of_quotient (neg : bool) (n d : positive) : float :=
  div (S754_finite neg n 0) (S754_finite false d 0).

(** The float nearest to [+/- m * 10^e]: the value of a decimal literal. *)
Definition of_decimal (neg : bool) (m e : Z) : float :=
  match m with
  | Zpos p =>
      match e with
      | Zneg k => of_quotient neg p (Pos.pow 10 k)
      | _ => binary_normalize prec emax (cond_Zopp neg (m * 10 ^ e)) 0 false
      end
  | _ => S754_zero neg
  end.

(** The integer nearest to [m * 2^e], ties to the even one. *)
Definition nearest_integer (m : positive) (e : Z) : Z :=
  match e with
  | Zneg k =>
      let d := Z.pow 2 (Zpos k) in
      let q := Z.div (Zpos m) d in
      let r := Z.modulo (Zpos m) d in
      match Z.compare (2 * r) d with
      | Lt => q
      | Gt => q + 1
      | Eq => if Z.even q then q else q + 1
      end
  | _ => Zpos m * 2 ^ e
  end.

(** [numpy.rint]: the float of the nearest integer, ties to even; a zero
    keeps the sign of the argument. *)
Definition rint (f : float) : float :=
  match f with
  | S754_finite s m e =>
      match nearest_integer m e with
      | Z0 => S754_zero s
      | n => binary_normalize prec emax (cond_Zopp s n) 0 false
      end
  | _ => f
  end.

(** [numpy.round(x, 1)], which [Series.round(1)] applies to each value:
    multiply by ten, round to an integer, divide by ten. *)
Definition round1 (f : float) : float :=
  div (rint (mul f (of_Z 10))) (of_Z 10).

End F.

(** ** [float(s)] on a string

    Python strips the whitespace around the text, accepts underscores
    between digits, an optional sign, then either [inf], [infinity] or
    [nan] in any case, or a decimal number: digits with an optional point
    and an optional exponent, at least one digit in the mantissa and in
    the exponent.  The whole text must be consumed; the value is the
    float nearest to the decimal number.  Anything else is a ValueError. *)

Module PyFloat.

Definition is_digit (c : ascii) : bool :=
  let n := nat_of_ascii c in ((48 <=? n) && (n <=? 57))%nat.

Definition digit_value (c : ascii) : Z := Z.of_nat (nat_of_ascii c - 48).

(** The leading digits of [s] and what follows them. *)
Fixpoint span_digits (s : string) : string * string :=
  match s with
  | String c s' =>
      if is_digit c
      then let (ds, rest) := span_digits s' in (String c ds, rest)
      else (EmptyString, s)
  | EmptyString => (EmptyString, EmptyString)
  end.

(** The number a string of digits denotes, [acc] being the value of the
    digits already read. *)
Fixpoint digits_value (acc : Z) (ds : string) : Z :=
  match ds with
  | EmptyString => acc
  | String c ds' => digits_value (10 * acc + digit_value c) ds'
  end.

(** Underscores: each one stands between two digits; they are dropped. *)
Fixpoint drop_underscores (prev : ascii) (s : string) : option string :=
  match s with
  | EmptyString => if Ascii.eqb prev "_" then None else Some EmptyString
  | String c s' =>
      if Ascii.eqb c "_" then
        if is_digit prev then drop_underscores c s' else None
      else if Ascii.eqb prev "_" && negb (is_digit c) then None
      else option_map (String c) (drop_underscores c s')
  end.

Definition split_sign (s : string) : bool * string :=
  match s with
  | String "-" s' => (true, s')
  | String "+" s' => (false, s')
  | _ => (false, s)
  end.

(** The exponent part, after the letter [e]: an optional sign and at
    least one digit, up to the end of the text. *)
Definition parse_exponent (s : string) : option Z :=
  let (neg, s1) := split_sign s in
  let (ds, rest) := span_digits s1 in
  match ds, rest with
  | String _ _, EmptyString => Some (cond_Zopp neg (digits_value 0 ds))
  | _, _ => None
  end.

(** A decimal number [m * 10^e] from its text. *)
Definition parse_decimal (s : string) : option (Z * Z) :=
  let (int_part, r1) := span_digits s in
  let (frac_part, r2) :=
    match r1 with
    | String "." r => span_digits r
    | _ => (EmptyString, r1)
    end in
  match (int_part ++ frac_part)%string with
  | EmptyString => None
  | ds =>
      let m := digits_value 0 ds in
      let scale := Z.of_nat (String.length frac_part) in
      match r2 with
      | EmptyString => Some (m, - scale)
      | String c r3 =>
          if Ascii.eqb c "e" || Ascii.eqb c "E" then
            option_map (fun x => (m, x - scale)) (parse_exponent r3)
          else None
      end
  end%Z.

Definition float_of_str (s : string) : result float :=
  match drop_underscores "000" (Str.strip s) with
  | None => Raise ValueError
  | Some t =>
      let (neg, body) := split_sign t in
      let word := Str.lower body in
      if String.eqb word "inf" || String.eqb word "infinity" then Ok (S754_infinity neg)
      else if String.eqb word "nan" then Ok F.nan
      else
        match parse_decimal body with
        | Some (m, e) => Ok (F.of_decimal neg m e)
        | None => Raise ValueError
        end
  end.

End PyFloat.

(** ** Currency parsing: [parse_gross] (lines 115-121)

    A cell of [total_gross] is a text or missing. *)

(** [str(x)]: the text itself; the missing cell prints as [nan]. *)
Definition str (x : option string) : string :=
  match x with
  | Some s => s
  | None => "nan"
  end.

Definition parse_gross (x : option string) : option float :=
  (* try: *)
  let x := str x in
  let x := Str.strip (Str.replace "," "" (Str.replace "M" "" (Str.replace "$" "" x))) in
  match PyFloat.float_of_str x with
  | Ok f => Some f
  (* except: *)
  | Raise _ => None
  end.

(** A value of the parsed column is missing for pandas when it is [None]
    or the float NaN. *)
Definition gross_isna (v : option float) : bool :=
  match v with
  | Some f => F.is_nan f
  | None => true
  end.

(** The text the specification describes: [s] without [$], [M] and [,],
    then trimmed. *)
Definition strip_currency (s : string) : string :=
  Str.strip (Str.remove_char "," (Str.remove_char "M" (Str.remove_char "$" s))).

(** ** Top-N selection: [DataFrame.nlargest(n, column)] (line 74)

    pandas selects on the column ([SelectNSeries.compute], keep="first")
    and takes the selected rows of the frame.  The model carries each row
    along with its key instead of a position pointing to it. *)

Section NLargest.
Context {A : Type}.
Variable key : A -> float.

Definition notna (a : A) : bool := negb (F.is_nan (key a)).
Definition isna_key (a : A) : bool := F.is_nan (key a).

(** [algos.kth_smallest(arr, k)]: the element of rank [k] (from 0) of
    the array in ascending order. *)
Definition kth_smallest (arr : list float) (k : nat) : float :=
  nth k (stable_sort F.leb arr) F.nan.

(** [sort_values(ascending=False)]: the values that are not NaN are
    reversed, sorted ascending, and reversed again; the NaN rows come
    last, in their order. *)
Definition sort_values_desc (s : list A) : list A :=
  let non_nans := filter notna s in
  let nan_idx := filter isna_key s in
  rev (stable_sort (fun a b => F.leb (key a) (key b)) (rev non_nans)) ++ nan_idx.

Definition nlargest (n : nat) (s : list A) : list A :=
  if (n <=? 0)%nat then []
  else
    let dropped := filter notna s in
    let nan_index := filter isna_key s in
    if (List.length s <=? n)%nat then
      (* slow method *)
      firstn n (sort_values_desc s)
    else
      (* fast method *)
      let arr (a : A) : float := SFopp (key a) in
      let narr := List.length dropped in
      let n' := Nat.min n narr in
      let kth_val :=
        if (0 <? narr)%nat
        then kth_smallest (List.map arr dropped) (n' - 1)
        else F.nan in
      let ns := filter (fun a => F.leb (arr a) kth_val) dropped in
      let inds := stable_sort (fun a b => F.leb (arr a) (arr b)) ns in
      let inds := firstn n' inds in
      firstn n (inds ++ nan_index).

(** The order of the specification: [a] may stand before [b] in
    descending order of the key, a NaN key standing last. *)
Definition before (a b : A) : bool :=
  F.is_nan (key b) || (negb (F.is_nan (key a)) && F.leb (key b) (key a)).

(** The specification of the selection: a stable descending sort,
    truncated to [n]. *)
Definition sort_truncate (n : nat) (s : list A) : list A :=
  firstn n (stable_sort before s).
End NLargest.

(** Line 74: [df_filtered.nlargest(10, 'rating')] *)
Definition top10 (rs : list Row) : list Row := nlargest rating 10 rs.

(** [a] stands strictly before [b] in descending order of the rating. *)
Definition better (a b : Row) : Prop := before rating b a = false.

(** ** Yearly mean: [groupby('year')['rating'].mean()] (line 84)

    pandas numbers the groups by the distinct years in ascending order
    (rows with a missing year belong to no group), then runs one pass over
    the rows that accumulates, per group, a compensated sum and a count of
    the ratings that are not NaN ([libgroupby.group_mean]). *)

Module GroupBy.

(** The group keys: the distinct years, ascending. *)
Definition group_keys (years : list (option Z)) : list Z :=
  stable_sort Z.leb (unique Z.eqb (dropna years)).

(** The position of [y] among the keys. *)
Fixpoint index_of (y : Z) (keys : list Z) : option nat :=
  match keys with
  | [] => None
  | k :: keys' => if Z.eqb y k then Some O else option_map S (index_of y keys')
  end.

(** The label of a row: the number of its group; [None] is pandas' -1. *)
Definition label (keys : list Z) (y : option Z) : option nat :=
  match y with
  | Some v => index_of v keys
  | None => None
  end.

(** The accumulators of one group. *)
Record acc : Type := {
  sumx : float;
  compensation : float;
  nobs : nat
}.

Definition acc0 : acc :=
  {| sumx := S754_zero false; compensation := S754_zero false; nobs := 0 |}.

(** One step of the loop for a row of the group, Kahan's summation. *)
Definition accumulate (a : acc) (val : float) : acc :=
  if F.is_nan val then a
  else
    let y := F.sub val (compensation a) in
    let t := F.add (sumx a) y in
    let c := F.sub (F.sub t (sumx a)) y in
    let c := if F.is_nan c then S754_zero false else c in
    {| sumx := t; compensation := c; nobs := S (nobs a) |}.

(** The value of a group once the rows are read. *)
Definition finish (a : acc) : float :=
  match nobs a with
  | O => F.nan
  | count => F.div (sumx a) (F.of_Z (Z.of_nat count))
  end.

(** [arr[i] = f(arr[i])]; nothing is written out of range. *)
Fixpoint update {A : Type} (i : nat) (f : A -> A) (arr : list A) : list A :=
  match arr, i with
  | [], _ => []
  | a :: arr', O => f a :: arr'
  | a :: arr', S j => a :: update j f arr'
  end.

Definition step (accs : list acc) (row : option nat * float) : list acc :=
  match fst row with
  | Some lab => update lab (fun a => accumulate a (snd row)) accs
  | None => accs
  end.

Definition group_mean (ngroups : nat) (labels : list (option nat))
    (values : list float) : list float :=
  List.map finish
    (fold_left step (combine labels values) (repeat acc0 ngroups)).

(** The mean of a list of floats as binary64 computes it: the compensated
    sum of the values that are not NaN, divided by their number; NaN when
    there is none. *)
Definition mean (values : list float) : float :=
  finish (fold_left accumulate values acc0).

End GroupBy.

(** Line 84: one point [(year, mean rating)] per group. *)
Definition year_avg (rs : list Row) : list (Z * float) :=
  let keys := GroupBy.group_keys (List.map year rs) in
  let labels := List.map (fun r => GroupBy.label keys (year r)) rs in
  combine keys (GroupBy.group_mean (List.length keys) labels (List.map rating rs)).

(** The ratings of the rows of year [y], in the order of the rows. *)
Definition ratings_of_year (y : Z) (rs : list Row) : list float :=
  List.map rating
    (filter (fun r => match year r with Some v => Z.eqb v y | None => false end) rs).

(** [y] is the year of some row. *)
Definition observed_year (rs : list Row) (y : Z) : Prop :=
  exists r, In r rs /\ year r = Some y.

(** ** Derived metrics (lines 69-167)

    What each chart hands to the plotting layer; [None] is a chart that is
    not drawn.  Rendering itself is outside the model. *)

(** [series.apply(f)]: [f] on every cell, the first exception ends it. *)
Fixpoint apply_cells {B : Type} (f : cell -> result B) (col : list cell)
    : result (list B) :=
  match col with
  | [] => Ok []
  | x :: col' =>
      v <- f x ;;
      vs <- apply_cells f col' ;;
      Ok (v :: vs)
  end.

(** [df['censor']] *)
Definition getitem_censor (df : DataFrame) : result (list cell) :=
  if has_column "censor" df then Ok (List.map censor (rows df))
  else Raise (KeyError "censor").

Definition with_censor_group (r : Row) (g : string) : Row :=
  {| movie_title := movie_title r; main_genre := main_genre r; year := year r;
     rating := rating r; runtime := runtime r; total_gross := total_gross r;
     censor := censor r;
     censor_group := Text g;
     total_gross_millions := total_gross_millions r |}.

Definition with_gross_millions (r : Row) (v : option float) : Row :=
  {| movie_title := movie_title r; main_genre := main_genre r; year := year r;
     rating := rating r; runtime := runtime r; total_gross := total_gross r;
     censor := censor r;
     censor_group := censor_group r;
     total_gross_millions := v |}.

(** [df[name] = values]: the column is added when the table lacks it. *)
Definition add_column (name : string) (cols : list string) : list string :=
  if Str.mem name cols then cols else cols ++ [name].

Fixpoint zip_rows {B : Type} (set : Row -> B -> Row) (rs : list Row) (vs : list B)
    : list Row :=
  match rs, vs with
  | r :: rs', v :: vs' => set r v :: zip_rows set rs' vs'
  | _, _ => []
  end.

(** Line 69: [df_filtered['censor_group'] = df_filtered['censor'].apply(clean_censor)] *)
Definition derive_censor_group (df : DataFrame) : result DataFrame :=
  col <- getitem_censor df ;;
  groups <- apply_cells clean_censor col ;;
  Ok {| columns := add_column "censor_group" (columns df);
        rows := zip_rows with_censor_group (rows df) groups |}.

(** Chart 1 (lines 72-74) *)
Definition chart_top10 (df : DataFrame) : option (list Row) :=
  if has_column "rating" df && has_column "movie_title" df && (0 <? len df)%nat
  then Some (top10 (rows df))
  else None.

(** Chart 2 (lines 82-84) *)
Definition chart_year_avg (df : DataFrame) : option (list (Z * float)) :=
  if has_column "year" df && has_column "rating" df && (0 <? len df)%nat
  then Some (year_avg (rows df))
  else None.

(** Chart 3 (lines 98-101): the runtimes that are not missing. *)
Definition chart_runtime (df : DataFrame) : option (list float) :=
  if has_column "runtime_(mins)" df && (0 <? len df)%nat
  then Some (filter (fun v => negb (F.is_nan v)) (List.map runtime (rows df)))
  else None.

(** Chart 4, line 123: the parsed column, written to the filtered table. *)
Definition parse_gross_column (df : DataFrame) : DataFrame :=
  {| columns := add_column "total_gross_millions" (columns df);
     rows := List.map (fun r => with_gross_millions r (parse_gross (total_gross r)))
               (rows df) |}.

(** Chart 4, lines 126-129: the rows whose gross was parsed, the value
    rounded to one decimal. *)
Definition gross_plot (df : DataFrame) : list Row :=
  List.map (fun r => with_gross_millions r (option_map F.round1 (total_gross_millions r)))
    (filter (fun r => negb (gross_isna (total_gross_millions r))) (rows df)).

Definition gross_guard (df : DataFrame) : bool :=
  has_column "rating" df && has_column "total_gross" df && (0 <? len df)%nat.

(** Chart 5 (lines 149-157): each row's censor group with its rating. *)
Definition chart_censor (df : DataFrame) : option (list (cell * float)) :=
  if has_column "censor_group" df && has_column "rating" df && (0 <? len df)%nat
  then Some (List.map (fun r => (censor_group r, rating r)) (rows df))
  else None.

Record Charts : Type := {
  top_rated : option (list Row);
  yearly_mean : option (list (Z * float));
  runtime_sample : option (list float);
  gross_sample : option (list Row);
  censor_sample : option (list (cell * float))
}.

(** Lines 69-167, on the filtered table. *)
Definition derive (df_filtered : DataFrame) : result Charts :=
  df_filtered <- derive_censor_group df_filtered ;;
  let c1 := chart_top10 df_filtered in
  let c2 := chart_year_avg df_filtered in
  let c3 := chart_runtime df_filtered in
  let df_parsed := parse_gross_column df_filtered in
  let c4 := if gross_guard df_filtered then Some (gross_plot df_parsed) else None in
  let df_filtered := if gross_guard df_filtered then df_parsed else df_filtered in
  let c5 := chart_censor df_filtered in
  Ok {| top_rated := c1; yearly_mean := c2; runtime_sample := c3;
        gross_sample := c4; censor_sample := c5 |}.

(** The whole script on a loaded table. *)
Definition script (ui : Sidebar) (df : DataFrame) : result Charts :=
  let df := {| columns := normalize (columns df); rows := rows df |} in
  df_filtered <- filter_block ui df ;;
  derive df_filtered.

(** No chart is drawn. *)
Definition no_charts : Charts :=
  {| top_rated := None; yearly_mean := None; runtime_sample := None;
     gross_sample := None; censor_sample := None |}.

(** ** Sample tables *)

Module Sample.

(** A row of a table with the columns title, genre, year and rating. *)
Definition film (title genre : string) (y : Z) (tenths : Z) : Row :=
  {| movie_title := Some title;
     main_genre := Some genre;
     year := Some y;
     rating := F.div (F.of_Z tenths) (F.of_Z 10);
     runtime := F.nan;
     total_gross := None;
     censor := NaN;
     censor_group := NaN;
     total_gross_millions := None |}.

(** A table without a [censor] column. *)
Definition no_censor : DataFrame :=
  {| columns := ["Movie Title"; "Main Genre"; "Year"; "Rating"];
     rows := [film "Alpha" "Drama" 2000 80; film "Beta" "Comedy" 2001 65] |}.

(** The same table with a [censor] column. *)
Definition with_censor : DataFrame :=
  {| columns := ["Movie Title"; "Main Genre"; "Year"; "Rating"; "Censor"];
     rows := rows no_censor |}.

(** The table [with_censor] as the script sees it, its column names
    normalised. *)
Definition films : DataFrame :=
  {| columns := normalize (columns with_censor); rows := rows with_censor |}.

(** The user keeps the defaults: "All" and the full range. *)
Definition defaults : Sidebar :=
  {| selectbox := fun options => hd "All" options;
     slider := fun lo hi => (lo, hi) |}.

(** The user selects the genre Drama and the single year 2001: no row
    matches. *)
Definition drama_2001 : Sidebar :=
  {| selectbox := fun _ => "Drama";
     slider := fun _ hi => (hi, hi) |}.

(** The rows of the yearly-mean example of the specification. *)
Definition three_ratings : list Row :=
  [film "A" "Drama" 2000 80; film "B" "Drama" 2000 60; film "C" "Drama" 2001 90].

(** Twelve films, several of them with the same rating. *)
Definition twelve : list Row :=
  [film "a" "Drama" 2000 70; film "b" "Drama" 2000 85; film "c" "Drama" 2000 85;
   film "d" "Drama" 2000 60; film "e" "Drama" 2000 90; film "f" "Drama" 2000 70;
   film "g" "Drama" 2000 85; film "h" "Drama" 2000 50; film "i" "Drama" 2000 95;
   film "j" "Drama" 2000 70; film "k" "Drama" 2000 65; film "l" "Drama" 2000 70].

End Sample.

(** ** Further notions used by the properties of the pipeline *)

(** The row has a year. *)
Definition has_year (r : Row) : bool :=
  match year r with
  | Some _ => true
  | None => false
  end.

(** The cell is a number: the one kind of cell [clean_censor] cannot
    handle. *)
Definition is_int (x : cell) : bool :=
  match x with
  | Int _ => true
  | _ => false
  end.

(** A character of a normalised column name: no upper-case letter and no
    space. *)
Definition normal_char (c : ascii) : bool :=
  let n := nat_of_ascii c in
  negb ((65 <=? n) && (n <=? 90))%nat && negb (Ascii.eqb c " ").

Fixpoint forall_chars (p : ascii -> bool) (s : string) : bool :=
  match s with
  | EmptyString => true
  | String c s' => p c && forall_chars p s'
  end.

(** The three characters [parse_gross] deletes. *)
Definition currency_char (c : ascii) : bool :=
  Ascii.eqb c "$" || Ascii.eqb c "M" || Ascii.eqb c ",".

(** The text without the three characters [parse_gross] deletes. *)
Definition delete_currency (s : string) : string :=
  Str.remove_char "," (Str.remove_char "M" (Str.remove_char "$" s)).

(** * Properties *)

(** ** Strings *)

Module StrFacts.
Import Str.

Ltac all_chars c :=
  destruct c as [[|] [|] [|] [|] [|] [|] [|] [|]]; vm_compute; try reflexivity; try discriminate.

Lemma map_map f g s : map f (map g s) = map (fun c => f (g c)) s.
Proof. induction s as [|c s IH]; simpl; [reflexivity | now rewrite IH]. Qed.

Lemma map_ext f g s : (forall c, f c = g c) -> map f s = map g s.
Proof. intros E; induction s as [|c s IH]; simpl; [reflexivity | now rewrite E, IH]. Qed.

Lemma lstrip_length s : String.length (lstrip s) <= String.length s.
Proof.
  induction s as [|c s IH]; simpl; [lia|].
  destruct (isspace c); simpl; lia.
Qed.

(** A string on which [lstrip] does nothing is empty or starts with a
    character that is no whitespace. *)
Lemma lstrip_fix_head c s : lstrip (String c s) = String c s -> isspace c = false.
Proof.
  simpl. destruct (isspace c); [|reflexivity].
  intros E. pose proof (lstrip_length s) as L. rewrite E in L. simpl in L. lia.
Qed.

Lemma lstrip_head c s : isspace c = false -> lstrip (String c s) = String c s.
Proof. intros E; simpl; now rewrite E. Qed.

Lemma lstrip_idem s : lstrip (lstrip s) = lstrip s.
Proof.
  induction s as [|c s IH]; simpl; [reflexivity|].
  destruct (isspace c) eqn:E; [exact IH | now apply lstrip_head].
Qed.

Lemma rstrip_idem s : rstrip (rstrip s) = rstrip s.
Proof.
  induction s as [|c s IH]; simpl; [reflexivity|].
  destruct (rstrip s) as [|d t] eqn:R.
  - destruct (isspace c) eqn:E; simpl; [reflexivity | now rewrite E].
  - change (rstrip (String c (String d t)) = String c (String d t)).
    simpl rstrip at 1. simpl in IH. rewrite IH. reflexivity.
Qed.

Lemma lstrip_rstrip s : lstrip s = s -> lstrip (rstrip s) = rstrip s.
Proof.
  destruct s as [|c s]; [reflexivity|]. intros E.
  apply lstrip_fix_head in E. simpl rstrip.
  destruct (rstrip s); [rewrite E|]; now apply lstrip_head.
Qed.

Lemma strip_stripped s : stripped (strip s).
Proof.
  unfold stripped, strip; split.
  - apply lstrip_rstrip, lstrip_idem.
  - apply rstrip_idem.
Qed.

Lemma stripped_strip s : stripped s -> strip s = s.
Proof. intros [L R]; unfold strip; now rewrite L, R. Qed.

Section Map.
Variable f : ascii -> ascii.
Hypothesis f_keeps : forall c, isspace c = false -> isspace (f c) = false.

Lemma lstrip_map s : lstrip s = s -> lstrip (map f s) = map f s.
Proof.
  destruct s as [|c s]; [reflexivity|]. intros E.
  apply lstrip_fix_head in E. simpl map. now apply lstrip_head, f_keeps.
Qed.

Lemma rstrip_map s : rstrip s = s -> rstrip (map f s) = map f s.
Proof.
  induction s as [|c s IH]; [reflexivity|]. simpl.
  destruct (rstrip s) as [|d t] eqn:R.
  - destruct (isspace c) eqn:E; [discriminate|].
    intros [= <-]. simpl. now rewrite (f_keeps _ E).
  - intros [= <-]. rewrite IH by reflexivity. reflexivity.
Qed.

Lemma stripped_map s : stripped s -> stripped (map f s).
Proof. intros [L R]; split; [now apply lstrip_map | now apply rstrip_map]. Qed.
End Map.

(** Replacing one character by one character is a character map. *)
Lemma replace_char a b s :
  replace (String a "") (String b "") s
  = map (fun c => if Ascii.eqb a c then b else c) s.
Proof.
  unfold replace. induction s as [|c s IH]; [reflexivity|].
  simpl. rewrite andb_true_r. destruct (Ascii.eqb a c); simpl; now rewrite IH.
Qed.

(** Deleting one character is a filter. *)
Lemma replace_delete a s : replace (String a "") "" s = remove_char a s.
Proof.
  unfold replace. induction s as [|c s IH]; [reflexivity|].
  simpl. rewrite andb_true_r. destruct (Ascii.eqb a c); simpl; now rewrite IH.
Qed.

End StrFacts.

(** ** Loader *)

Lemma normalize_name_map c :
  normalize_name c = Str.map normalize_char (Str.strip c).
Proof.
  unfold normalize_name, Str.lower.
  rewrite StrFacts.replace_char, StrFacts.map_map. reflexivity.
Qed.

Lemma normalize_char_idem c : normalize_char (normalize_char c) = normalize_char c.
Proof. StrFacts.all_chars c. Qed.

Lemma normalize_char_keeps c :
  Str.isspace c = false -> Str.isspace (normalize_char c) = false.
Proof. StrFacts.all_chars c. Qed.

Lemma normalize_name_idem c : normalize_name (normalize_name c) = normalize_name c.
Proof.
  rewrite !normalize_name_map.
  rewrite StrFacts.stripped_strip.
  - rewrite StrFacts.map_map. apply StrFacts.map_ext, normalize_char_idem.
  - apply StrFacts.stripped_map; [exact normalize_char_keeps | apply StrFacts.strip_stripped].
Qed.

(** C9.  Column-name normalisation (strip, lower-case, spaces to
    underscores) is idempotent: on every list of column names, applying it
    twice gives what applying it once gives. *)
Theorem normalize_idempotent (cols : list string) :
  normalize (normalize cols) = normalize cols.
Proof.
  unfold normalize. rewrite List.map_map.
  apply List.map_ext. intros c. apply normalize_name_idem.
Qed.

(** ** Field normaliser *)

Lemma mem_In x xs : Str.mem x xs = true <-> In x xs.
Proof.
  unfold Str.mem. rewrite existsb_exists. split.
  - intros (y & Hy & E). apply String.eqb_eq in E. now subst.
  - intros H. exists x. split; [exact H | apply String.eqb_refl].
Qed.

Lemma mem_not_In x xs : Str.mem x xs = false <-> ~ In x xs.
Proof.
  rewrite <- mem_In. destruct (Str.mem x xs); split; intros; congruence.
Qed.

Lemma clean_censor_text s :
  exists g, clean_censor (Text s) = Ok g
            /\ censor_table (Str.upper (Str.strip s)) g
            /\ In g censor_groups.
Proof.
  unfold clean_censor, censor_table, censor_groups.
  cbn [isna cell_strip bind].
  set (t := Str.upper (Str.strip s)).
  destruct (Str.mem t ["U"; "G"]) eqn:E1.
  { eexists; split; [reflexivity|]. apply mem_In in E1. simpl in *. intuition. }
  destruct (Str.mem t ["UA"; "PG"; "PG-13"]) eqn:E2.
  { eexists; split; [reflexivity|]. apply mem_In in E2. simpl in *. intuition. }
  destruct (Str.mem t ["A"; "R"]) eqn:E3.
  { eexists; split; [reflexivity|]. apply mem_In in E3. simpl in *. intuition. }
  eexists; split; [reflexivity|].
  apply mem_not_In in E1, E2, E3. simpl in *. split; [|intuition].
  right; right; right. split; [|reflexivity]. intuition.
Qed.

(** C4.  A missing censorship code is classified "Unknown"; a text code is
    trimmed, upper-cased and classified by exact membership: U, G are "All
    Ages"; UA, PG, PG-13 are "Parental Guidance"; A, R are "Adults Only";
    everything else, the empty text included, is "Unknown".  In particular
    None gives "Unknown", "pg-13" gives "Parental Guidance" and "X" gives
    "Unknown". *)
Theorem clean_censor_classifies :
  clean_censor NaN = Ok "Unknown"
  /\ (forall s, exists g,
        clean_censor (Text s) = Ok g /\ censor_table (Str.upper (Str.strip s)) g)
  /\ clean_censor (Text "pg-13") = Ok "Parental Guidance"
  /\ clean_censor (Text "X") = Ok "Unknown"
  /\ clean_censor (Text "   ") = Ok "Unknown"
  /\ clean_censor (Text " ua ") = Ok "Parental Guidance".
Proof.
  split; [reflexivity|]. split.
  - intros s. destruct (clean_censor_text s) as (g & E & T & _). now exists g.
  - repeat split; reflexivity.
Qed.

(** C5, as stated, fails: on a cell that is a number (a censor column of
    age limits such as 12, 16, 18 is read as integers) [x.strip()] raises
    AttributeError, so the classification is not total on every cell. *)
Lemma clean_censor_not_total :
  clean_censor (Int 18) = Raise AttributeError
  /\ ~ (forall x : cell, returns_group x).
Proof.
  split; [reflexivity|].
  intros H. destruct (H (Int 18)) as (g & E & _). discriminate E.
Qed.

(** C5, amended.  On every cell that is missing or a text, the censor
    classification returns one of the four censor groups and raises
    nothing. *)
Theorem clean_censor_total_on_text :
  returns_group NaN /\ forall s : string, returns_group (Text s).
Proof.
  split.
  - exists "Unknown". split; [reflexivity|]. simpl; intuition.
  - intros s. destruct (clean_censor_text s) as (g & E & _ & G). now exists g.
Qed.

(** ** Filter engine *)

Lemma subseq_refl {A} (l : list A) : subseq l l.
Proof. induction l; constructor; assumption. Qed.

Lemma subseq_trans {A} (l1 l2 l3 : list A) :
  subseq l1 l2 -> subseq l2 l3 -> subseq l1 l3.
Proof.
  intros H12 H23. revert l1 H12.
  induction H23 as [|x l2 l3 H IH|x l2 l3 H IH]; intros l1 H12.
  - exact H12.
  - constructor. now apply IH.
  - inversion H12; subst.
    + constructor. now apply IH.
    + apply subseq_keep. now apply IH.
Qed.

Lemma subseq_filter {A} (p : A -> bool) (l : list A) : subseq (filter p l) l.
Proof.
  induction l as [|x l IH]; simpl; [constructor|].
  destruct (p x); now constructor.
Qed.

Lemma subseq_In {A} (l1 l2 : list A) x : subseq l1 l2 -> In x l1 -> In x l2.
Proof.
  induction 1; simpl; intuition.
Qed.

(** Indexing with the mask computed from the rows themselves is a filter. *)
Lemma boolean_index_map (p : Row -> bool) rs :
  boolean_index rs (List.map p rs) = filter p rs.
Proof.
  induction rs as [|r rs IH]; simpl; [reflexivity|].
  destruct (p r); now rewrite IH.
Qed.

Lemma filter_true {A} (l : list A) : filter (fun _ => true) l = l.
Proof. induction l; simpl; congruence. Qed.

Lemma filter_filter {A} (p q : A -> bool) (l : list A) :
  filter q (filter p l) = filter (fun x => p x && q x) l.
Proof.
  induction l as [|x l IH]; simpl; [reflexivity|].
  destruct (p x); simpl; [destruct (q x)|]; now rewrite IH.
Qed.

Lemma genre_filter_columns sel df : columns (genre_filter sel df) = columns df.
Proof.
  unfold genre_filter. destruct (has_column _ df); [|reflexivity].
  destruct (String.eqb sel "All"); reflexivity.
Qed.

Lemma genre_filter_rows sel df :
  rows (genre_filter sel df)
  = filter (fun r => if has_column "main_genre" df
                     then String.eqb sel "All" || genre_eq sel (main_genre r)
                     else true) (rows df).
Proof.
  unfold genre_filter. destruct (has_column _ df).
  - destruct (String.eqb sel "All"); simpl.
    + now rewrite filter_true.
    + apply boolean_index_map.
  - now rewrite filter_true.
Qed.

Lemma applyFilters_columns df st : columns (applyFilters df st) = columns df.
Proof.
  unfold applyFilters, year_filter.
  destruct (has_column "year" df); simpl; apply genre_filter_columns.
Qed.

(** The pipeline is one pass that keeps the rows passing [keeps]. *)
Lemma applyFilters_rows df st :
  rows (applyFilters df st) = filter (keeps df st) (rows df).
Proof.
  unfold applyFilters, year_filter, keeps.
  destruct (has_column "year" df); simpl.
  - rewrite boolean_index_map, genre_filter_rows, filter_filter. reflexivity.
  - rewrite genre_filter_rows. apply filter_ext. intros r. now rewrite andb_true_r.
Qed.

Lemma genre_eq_true sel g : genre_eq sel g = true <-> g = Some sel.
Proof.
  destruct g as [s|]; simpl; [|split; discriminate].
  rewrite String.eqb_eq. split; congruence.
Qed.

Lemma year_between_true lo hi y :
  year_between lo hi y = true <-> exists v, y = Some v /\ (lo <= v <= hi)%Z.
Proof.
  destruct y as [v|]; simpl.
  - rewrite andb_true_iff, !Z.leb_le. split.
    + intros H. now exists v.
    + intros (w & [= <-] & H). exact H.
  - split; [discriminate | intros (w & E & _); discriminate].
Qed.

(** C1.  For every table and every filter state (a genre selection that is
    "All" or a genre, and an inclusive year interval), the rows the
    filtering pipeline returns are rows of the input, in the order they
    have in the input, and each passes the active predicates: its genre is
    the selection unless "All" is selected, and its year lies in the
    interval.  (A predicate is active when the table has its column.) *)
Theorem applyFilters_sound (df : DataFrame) (st : FilterState) :
  columns (applyFilters df st) = columns df
  /\ subseq (rows (applyFilters df st)) (rows df)
  /\ Forall (fun r =>
       (has_column "main_genre" df = false \/ genre_ok st r)
       /\ (has_column "year" df = false \/ year_ok st r))
     (rows (applyFilters df st)).
Proof.
  split; [apply applyFilters_columns|].
  rewrite applyFilters_rows. split; [apply subseq_filter|].
  apply Forall_forall. intros r Hr. apply filter_In in Hr. destruct Hr as [_ K].
  unfold keeps in K. apply andb_true_iff in K. destruct K as [G Y]. split.
  - destruct (has_column "main_genre" df); [right | now left].
    apply orb_true_iff in G. destruct G as [G|G].
    + left. now apply String.eqb_eq.
    + right. now apply genre_eq_true.
  - destruct (has_column "year" df); [right | now left].
    now apply year_between_true.
Qed.

(** ** Stable sorting *)

Local Open Scope list_scope.

Lemma insert_perm {A} (le : A -> A -> bool) x l :
  Permutation (insert le x l) (x :: l).
Proof.
  induction l as [|y l IH]; simpl; [apply Permutation_refl|].
  destruct (le x y); [apply Permutation_refl|].
  apply perm_trans with (y :: x :: l); [now apply perm_skip | apply perm_swap].
Qed.

Lemma stable_sort_perm {A} (le : A -> A -> bool) l :
  Permutation (stable_sort le l) l.
Proof.
  induction l as [|x l IH]; simpl; [constructor|].
  apply perm_trans with (x :: stable_sort le l);
    [apply insert_perm | now apply perm_skip].
Qed.

Lemma stable_sort_In {A} (le : A -> A -> bool) l x :
  In x (stable_sort le l) <-> In x l.
Proof.
  split; apply Permutation_in;
    [apply stable_sort_perm | apply Permutation_sym, stable_sort_perm].
Qed.

Lemma stable_sort_length {A} (le : A -> A -> bool) l :
  List.length (stable_sort le l) = List.length l.
Proof. apply Permutation_length, stable_sort_perm. Qed.

(** The sort only looks at the comparisons between elements of the list. *)
Lemma insert_ext_in {A} (le1 le2 : A -> A -> bool) x l :
  (forall y, In y l -> le1 x y = le2 x y) -> insert le1 x l = insert le2 x l.
Proof.
  induction l as [|y l IH]; intros E; simpl; [reflexivity|].
  rewrite (E y (or_introl eq_refl)). destruct (le2 x y); [reflexivity|].
  f_equal. apply IH. intros z Hz. apply E. now right.
Qed.

Lemma stable_sort_ext_in {A} (le1 le2 : A -> A -> bool) l :
  (forall x y, In x l -> In y l -> le1 x y = le2 x y) ->
  stable_sort le1 l = stable_sort le2 l.
Proof.
  induction l as [|x l IH]; intros E; simpl; [reflexivity|].
  rewrite IH by (intros; apply E; now right).
  apply insert_ext_in. intros y Hy. apply stable_sort_In in Hy.
  apply E; [now left | now right].
Qed.

Lemma insert_map {A B} (f : A -> B) (le : B -> B -> bool) x l :
  insert le (f x) (List.map f l)
  = List.map f (insert (fun a b => le (f a) (f b)) x l).
Proof.
  induction l as [|y l IH]; simpl; [reflexivity|].
  destruct (le (f x) (f y)); simpl; [reflexivity | now rewrite IH].
Qed.

Lemma stable_sort_map {A B} (f : A -> B) (le : B -> B -> bool) l :
  stable_sort le (List.map f l)
  = List.map f (stable_sort (fun a b => le (f a) (f b)) l).
Proof.
  induction l as [|x l IH]; simpl; [reflexivity|].
  now rewrite IH, insert_map.
Qed.

(** A list whose elements may all stand before one another is sorted
    already, and the stable sort leaves it as it is. *)
Lemma stable_sort_ties {A} (le : A -> A -> bool) l :
  (forall x y, In x l -> In y l -> le x y = true) -> stable_sort le l = l.
Proof.
  induction l as [|x l IH]; intros E; simpl; [reflexivity|].
  rewrite IH by (intros; apply E; now right).
  destruct l as [|y l]; [reflexivity|]. simpl.
  rewrite E; [reflexivity | now left | right; now left].
Qed.

Lemma filter_all {A} (p : A -> bool) l :
  (forall x, In x l -> p x = true) -> filter p l = l.
Proof.
  induction l as [|x l IH]; intros E; simpl; [reflexivity|].
  rewrite (E x (or_introl eq_refl)), IH; [reflexivity|].
  intros; apply E; now right.
Qed.

Lemma filter_none {A} (p : A -> bool) l :
  (forall x, In x l -> p x = false) -> filter p l = [].
Proof.
  induction l as [|x l IH]; intros E; simpl; [reflexivity|].
  rewrite (E x (or_introl eq_refl)). apply IH. intros; apply E; now right.
Qed.

Lemma sorted_by_snoc {A} (le : A -> A -> bool) l x :
  sorted_by le l -> Forall (fun a => le a x = true) l -> sorted_by le (l ++ [x]).
Proof.
  unfold sorted_by. induction l as [|a l IH]; simpl; intros S F.
  - repeat constructor.
  - apply StronglySorted_inv in S. destruct S as [S Fa].
    apply Forall_cons_iff in F. destruct F as [Hax F].
    constructor; [now apply IH|].
    apply Forall_app. split; [exact Fa | now constructor].
Qed.

Lemma sorted_by_rev {A} (le : A -> A -> bool) l :
  sorted_by le l -> sorted_by (converse le) (rev l).
Proof.
  induction l as [|a l IH]; simpl; intros S; [constructor|].
  apply StronglySorted_inv in S. destruct S as [S Fa].
  apply sorted_by_snoc; [now apply IH|].
  apply Forall_rev. exact Fa.
Qed.

Section SortFacts.
Context {A : Type}.
Variable le : A -> A -> bool.
Hypothesis le_total : forall a b, le a b = true \/ le b a = true.
Hypothesis le_trans : forall a b c, le a b = true -> le b c = true -> le a c = true.

Lemma le_refl a : le a a = true.
Proof. now destruct (le_total a a). Qed.

Lemma le_false a b : le a b = false -> le b a = true.
Proof. intros E. destruct (le_total a b); congruence. Qed.

Lemma insert_sorted_by x l : sorted_by le l -> sorted_by le (insert le x l).
Proof.
  unfold sorted_by. induction l as [|y l IH]; simpl; intros S.
  - repeat constructor.
  - apply StronglySorted_inv in S. destruct S as [S F].
    destruct (le x y) eqn:E.
    + constructor; [now constructor|]. constructor; [exact E|].
      eapply Forall_impl; [|exact F]. intros z Hz. now apply le_trans with y.
    + constructor; [now apply IH|].
      eapply Permutation_Forall; [apply Permutation_sym, insert_perm|].
      constructor; [now apply le_false | exact F].
Qed.

Lemma stable_sort_sorted l : sorted_by le (stable_sort le l).
Proof.
  induction l as [|x l IH]; simpl; [constructor | now apply insert_sorted_by].
Qed.

(** Filtering commutes with the stable sort. *)
Lemma filter_insert (p : A -> bool) x l :
  sorted_by le l ->
  filter p (insert le x l) = if p x then insert le x (filter p l) else filter p l.
Proof.
  unfold sorted_by. induction l as [|y l IH]; intros S.
  - simpl. now destruct (p x).
  - apply StronglySorted_inv in S. destruct S as [S F]. simpl.
    destruct (le x y) eqn:E.
    + simpl. destruct (p x); [|reflexivity].
      destruct (p y); simpl; [now rewrite E|].
      destruct (filter p l) as [|z t] eqn:Ef; [reflexivity|]. simpl.
      assert (Hz : In z (filter p l)) by (rewrite Ef; now left).
      apply filter_In in Hz. destruct Hz as [Hz _].
      rewrite Forall_forall in F.
      now rewrite (le_trans _ _ _ E (F z Hz)).
    + simpl. rewrite (IH S). destruct (p y), (p x); simpl; now rewrite ?E.
Qed.

Lemma filter_stable_sort (p : A -> bool) l :
  filter p (stable_sort le l) = stable_sort le (filter p l).
Proof.
  induction l as [|x l IH]; [reflexivity|]. simpl.
  rewrite filter_insert by apply stable_sort_sorted.
  rewrite IH. now destruct (p x).
Qed.

Lemma insert_app_le x y l1 l2 :
  le x y = true -> insert le x (l1 ++ y :: l2) = insert le x l1 ++ y :: l2.
Proof.
  intros E. induction l1 as [|a l1 IH]; simpl; [now rewrite E|].
  destruct (le x a); [reflexivity | now rewrite IH].
Qed.

Lemma insert_app_gt x y l1 l2 :
  Forall (fun z => le x z = false) l1 -> le x y = false ->
  insert le x (l1 ++ y :: l2) = l1 ++ y :: insert le x l2.
Proof.
  intros F E. induction F as [|a l1 Ha F IH]; simpl; [now rewrite E|].
  now rewrite Ha, IH.
Qed.

(** Sorting a list with one more element at its end: the element goes
    behind everything that may stand before it. *)
Lemma stable_sort_snoc l x :
  stable_sort le (l ++ [x])
  = filter (fun y => le y x) (stable_sort le l)
    ++ x :: filter (fun y => negb (le y x)) (stable_sort le l).
Proof.
  induction l as [|a l IH]; [reflexivity|].
  simpl. rewrite IH.
  rewrite !filter_insert by apply stable_sort_sorted.
  destruct (le a x) eqn:E; simpl.
  - now apply insert_app_le.
  - apply insert_app_gt; [|exact E].
    apply Forall_forall. intros z Hz. apply filter_In in Hz.
    destruct Hz as [_ Hz]. destruct (le a z) eqn:Eaz; [|reflexivity].
    now rewrite (le_trans _ _ _ Eaz Hz) in E.
Qed.

(** Where [insert] puts an element in a sorted list. *)
Lemma insert_split x l :
  sorted_by le l ->
  insert le x l
  = filter (fun y => negb (le x y)) l ++ x :: filter (fun y => le x y) l.
Proof.
  unfold sorted_by. induction l as [|y l IH]; intros S; [reflexivity|].
  apply StronglySorted_inv in S. destruct S as [S F]. simpl.
  destruct (le x y) eqn:E; simpl.
  - rewrite Forall_forall in F.
    assert (All : forall z, In z l -> le x z = true)
      by (intros z Hz; now apply le_trans with y, F).
    rewrite filter_none by (intros z Hz; now rewrite All).
    rewrite filter_all by exact All. reflexivity.
  - now rewrite (IH S).
Qed.

(** The elements up to rank [k] of a sorted list are those that may
    stand before the element of rank [k], up to rank [k]. *)
Lemma firstn_filter_rank d l : sorted_by le l ->
  forall k, k < List.length l ->
  firstn (S k) (filter (fun y => le y (nth k l d)) l) = firstn (S k) l.
Proof.
  unfold sorted_by. induction l as [|a l IH]; intros S k Hk; [simpl in Hk; lia|].
  apply StronglySorted_inv in S. destruct S as [S F].
  destruct k as [|k].
  - simpl. now rewrite le_refl.
  - simpl in Hk. cbn [nth filter].
    rewrite Forall_forall in F.
    rewrite (F (nth k l d)) by (apply nth_In; lia).
    cbn [firstn]. f_equal. apply IH; [exact S | lia].
Qed.

(** A sorted list in which the elements of a class stand strictly
    before the others is the class followed by the others. *)
Lemma sorted_by_partition (p : A -> bool) l :
  (forall a b, p a = false -> p b = true -> le a b = false) ->
  sorted_by le l -> l = filter p l ++ filter (fun a => negb (p a)) l.
Proof.
  intros Hp. unfold sorted_by. induction l as [|a l IH]; intros S; [reflexivity|].
  apply StronglySorted_inv in S. destruct S as [S F]. simpl.
  destruct (p a) eqn:E; simpl.
  - f_equal. now apply IH.
  - rewrite Forall_forall in F.
    assert (N : forall b, In b l -> p b = false).
    { intros b Hb. destruct (p b) eqn:Eb; [|reflexivity].
      specialize (Hp a b E Eb). rewrite (F b Hb) in Hp. discriminate. }
    rewrite filter_none by exact N. simpl. f_equal. symmetry.
    apply filter_all. intros b Hb. now rewrite (N b Hb).
Qed.
End SortFacts.

(** Sorting the reversed list and reversing the result is the stable sort
    for the comparison read backwards: what [sort_values] does for a
    descending order. *)
Lemma rev_stable_sort_rev {A} (le : A -> A -> bool)
  (le_total : forall a b, le a b = true \/ le b a = true)
  (le_trans : forall a b c, le a b = true -> le b c = true -> le a c = true) l :
  rev (stable_sort le (rev l)) = stable_sort (converse le) l.
Proof.
  assert (T : forall a b, converse le a b = true \/ converse le b a = true)
    by (intros a b; unfold converse; destruct (le_total a b); auto).
  assert (R : forall a b c, converse le a b = true -> converse le b c = true ->
                            converse le a c = true)
    by (unfold converse; eauto).
  induction l as [|x l IH]; [reflexivity|].
  simpl rev at 2. rewrite (stable_sort_snoc le le_total le_trans).
  rewrite rev_app_distr. simpl rev. rewrite <- app_assoc. simpl app.
  rewrite <- !filter_rev, IH. simpl stable_sort.
  rewrite (insert_split (converse le) R) by now apply stable_sort_sorted.
  reflexivity.
Qed.

(** ** Genre options *)

Lemma ascii_compare_lt_trans a b c :
  Ascii.compare a b = Lt -> Ascii.compare b c = Lt -> Ascii.compare a c = Lt.
Proof.
  unfold Ascii.compare. rewrite !N.compare_lt_iff. apply N.lt_trans.
Qed.

Lemma string_compare_lt_trans a : forall b c,
  String.compare a b = Lt -> String.compare b c = Lt -> String.compare a c = Lt.
Proof.
  induction a as [|x a IH]; intros [|y b] [|z c]; simpl; try discriminate; trivial.
  destruct (Ascii.compare x y) eqn:Exy; try discriminate.
  - apply Ascii.compare_eq_iff in Exy. subst y.
    destruct (Ascii.compare x z); try discriminate; trivial. apply IH.
  - intros _. destruct (Ascii.compare y z) eqn:Eyz; try discriminate.
    + apply Ascii.compare_eq_iff in Eyz. subst z. now rewrite Exy.
    + now rewrite (ascii_compare_lt_trans _ _ _ Exy Eyz).
Qed.

Lemma string_leb_trans a b c :
  String.leb a b = true -> String.leb b c = true -> String.leb a c = true.
Proof.
  unfold String.leb.
  destruct (String.compare a b) eqn:Eab; try discriminate; intros _.
  - apply String.compare_eq_iff in Eab. now subst b.
  - destruct (String.compare b c) eqn:Ebc; try discriminate; intros _.
    + apply String.compare_eq_iff in Ebc. subst c. now rewrite Eab.
    + now rewrite (string_compare_lt_trans _ _ _ Eab Ebc).
Qed.

Section Unique.
Context {A : Type} (eqb : A -> A -> bool).
Hypothesis eqb_eq : forall x y, eqb x y = true <-> x = y.

Lemma unique_In x l : In x (unique eqb l) <-> In x l.
Proof.
  induction l as [|y l IH]; simpl; [reflexivity|].
  rewrite filter_In, IH, negb_true_iff.
  destruct (eqb x y) eqn:E.
  - apply eqb_eq in E. subst. intuition congruence.
  - assert (x <> y) by (intros ->; rewrite (proj2 (eqb_eq y y) eq_refl) in E; discriminate).
    intuition congruence.
Qed.

Lemma unique_NoDup l : NoDup (unique eqb l).
Proof.
  induction l as [|y l IH]; simpl; constructor.
  - rewrite filter_In, negb_true_iff, (proj2 (eqb_eq y y) eq_refl). intuition congruence.
  - now apply NoDup_filter.
Qed.
End Unique.

Lemma dropna_In {A} (a : A) col : In a (dropna col) <-> In (Some a) col.
Proof.
  induction col as [|[b|] col IH]; simpl; [reflexivity| |].
  - rewrite IH. intuition congruence.
  - rewrite IH. intuition congruence.
Qed.

Lemma observed_genre_In df g :
  observed_genre df g
  <-> In g (unique String.eqb (dropna (List.map main_genre (rows df)))).
Proof.
  rewrite (unique_In _ String.eqb_eq), dropna_In, in_map_iff. unfold observed_genre.
  split; intros (r & H1 & H2); exists r; intuition.
Qed.

(** C10.  For every table with a genre column: the options of the genre
    select box are "All" followed by the distinct non-missing genre values
    in ascending order; selecting a genre other than "All" leaves only rows
    of that genre, so every row whose genre is missing is excluded;
    selecting "All" keeps every row at the genre filter, the rows with a
    missing genre among them. *)
Theorem main_genres_and_selection (df : DataFrame)
  (Hcol : has_column "main_genre" df = true) :
  (exists l, main_genres df = "All" :: l
             /\ NoDup l /\ ascending l
             /\ forall g, In g l <-> observed_genre df g)
  /\ (forall sel, sel <> "All" ->
        Forall (fun r => main_genre r = Some sel) (rows (genre_filter sel df))
        /\ forall range r,
             In r (rows (applyFilters df {| selected_main_genre := sel;
                                            selected_year_range := range |})) ->
             main_genre r <> None)
  /\ genre_filter "All" df = df.
Proof.
  split; [|split].
  - eexists. split; [reflexivity|]. split; [|split].
    + eapply Permutation_NoDup;
        [apply Permutation_sym, stable_sort_perm | apply (unique_NoDup _ String.eqb_eq)].
    + apply stable_sort_sorted; [exact String.leb_total | exact string_leb_trans].
    + intros g. now rewrite observed_genre_In, stable_sort_In.
  - intros sel Hsel. apply String.eqb_neq in Hsel. split.
    + rewrite genre_filter_rows, Hcol, Hsel. simpl.
      apply Forall_forall. intros r Hr. apply filter_In in Hr.
      now apply genre_eq_true.
    + intros range r Hr. rewrite applyFilters_rows in Hr.
      apply filter_In in Hr. destruct Hr as [_ K]. unfold keeps in K.
      rewrite Hcol in K. simpl in K. rewrite Hsel in K. simpl in K.
      apply andb_true_iff in K. destruct K as [G _].
      apply genre_eq_true in G. congruence.
  - unfold genre_filter. now rewrite Hcol.
Qed.

(** ** Currency parsing *)

(** The three [replace] calls and the [strip] of [parse_gross] leave the
    text without [$], [M] and [,], trimmed. *)
Lemma parse_gross_text s :
  Str.strip (Str.replace "," "" (Str.replace "M" "" (Str.replace "$" "" s)))
  = strip_currency s.
Proof.
  unfold strip_currency. now rewrite !StrFacts.replace_delete.
Qed.

Lemma parse_gross_column_rows df :
  rows (parse_gross_column df)
  = List.map (fun r => with_gross_millions r (parse_gross (total_gross r))) (rows df).
Proof. reflexivity. Qed.

(** The sample of chart 4: a row is left out when its gross did not
    parse, and carries the parsed value rounded to one decimal otherwise. *)
Lemma gross_plot_rows df :
  gross_plot (parse_gross_column df)
  = flat_map (fun r =>
      match parse_gross (total_gross r) with
      | Some f =>
          if F.is_nan f then []
          else [with_gross_millions r (Some (F.round1 f))]
      | None => []
      end) (rows df).
Proof.
  unfold gross_plot. rewrite parse_gross_column_rows.
  induction (rows df) as [|r rs IH]; [reflexivity|].
  cbn [List.map filter flat_map]. cbn [with_gross_millions total_gross_millions].
  destruct (parse_gross (total_gross r)) as [f|]; cbn [gross_isna].
  - destruct (F.is_nan f); cbn [negb List.map app]; [exact IH|].
    cbn [with_gross_millions total_gross_millions option_map movie_title main_genre
         year rating runtime total_gross censor censor_group].
    now rewrite IH.
  - cbn [negb]. exact IH.
Qed.

(** C3.  [parse_gross] removes [$], [M] and [,] from the text, trims it and
    parses it as a float; when the text does not parse (a remainder that
    is no number, the empty text) the result is [None], and a missing cell
    gives NaN: both are missing values for pandas, and no exception leaves
    the function.  The chart then drops the rows without a value and
    rounds the others to one decimal.  In particular "$123.4M" gives
    123.4 (the float 1234/10), "N/A" gives nothing, "$1,234M" gives
    1234.0. *)
Theorem parse_gross_spec :
  (forall s, parse_gross (Some s)
             = match PyFloat.float_of_str (strip_currency s) with
               | Ok f => Some f
               | Raise _ => None
               end)
  /\ gross_isna (parse_gross None) = true
  /\ parse_gross (Some "") = None
  /\ parse_gross (Some "N/A") = None
  /\ parse_gross (Some "12 M 3") = None
  /\ parse_gross (Some "1M2") = Some (F.of_Z 12)
  /\ parse_gross (Some "$123.4M") = Some (F.div (F.of_Z 1234) (F.of_Z 10))
  /\ parse_gross (Some "$1,234M") = Some (F.of_Z 1234)
  /\ F.round1 (F.div (F.of_Z 1234) (F.of_Z 10)) = F.div (F.of_Z 1234) (F.of_Z 10)
  /\ F.round1 (F.of_Z 1234) = F.of_Z 1234
  /\ option_map F.round1 (parse_gross (Some "$936.66M"))
     = Some (F.div (F.of_Z 9367) (F.of_Z 10))
  /\ (forall df,
        gross_plot (parse_gross_column df)
        = flat_map (fun r =>
            match parse_gross (total_gross r) with
            | Some f =>
                if F.is_nan f then []
                else [with_gross_millions r (Some (F.round1 f))]
            | None => []
            end) (rows df)).
Proof.
  split.
  { intros s. unfold parse_gross. cbn [str]. now rewrite parse_gross_text. }
  do 10 (split; [vm_compute; reflexivity|]).
  apply gross_plot_rows.
Qed.

(** ** The order of floats *)

Module FloatOrder.

Lemma compare_antisym x y :
  SFcompare y x = option_map CompOpp (SFcompare x y).
Proof.
  destruct x as [sx|sx| |sx mx ex], y as [sy|sy| |sy my ey];
    try destruct sx; try destruct sy; try reflexivity.
  all: simpl; rewrite (Z.compare_antisym ey ex);
    change (Pos.compare_cont Eq mx my) with (Pos.compare mx my);
    change (Pos.compare_cont Eq my mx) with (Pos.compare my mx);
    rewrite (Pos.compare_antisym my mx);
    destruct (ey ?= ex)%Z; simpl; try reflexivity;
    destruct (my ?= mx)%positive; reflexivity.
Qed.

Lemma compare_opp x y : SFcompare (SFopp x) (SFopp y) = SFcompare y x.
Proof.
  destruct x as [sx|sx| |sx mx ex], y as [sy|sy| |sy my ey];
    try destruct sx; try destruct sy; try reflexivity.
  all: simpl; rewrite (Z.compare_antisym ex ey);
    change (Pos.compare_cont Eq mx my) with (Pos.compare mx my);
    change (Pos.compare_cont Eq my mx) with (Pos.compare my mx);
    rewrite (Pos.compare_antisym mx my);
    destruct (ex ?= ey)%Z; simpl; try reflexivity;
    destruct (mx ?= my)%positive; reflexivity.
Qed.

Lemma leb_opp x y : F.leb (SFopp x) (SFopp y) = F.leb y x.
Proof. unfold F.leb, SFleb. now rewrite compare_opp. Qed.

(** Two floats that are not NaN are comparable. *)
Lemma leb_total x y :
  F.is_nan x = false -> F.is_nan y = false ->
  F.leb x y = true \/ F.leb y x = true.
Proof.
  intros Hx Hy. unfold F.leb, SFleb. rewrite (compare_antisym x y).
  destruct x, y; try discriminate;
    (destruct (SFcompare _ _) as [[| |]|] eqn:E; simpl; auto; discriminate E).
Qed.

(** [leb] on two finite floats of the same sign is the lexicographic
    order on the exponent and the mantissa. *)
Lemma leb_finite s1 m1 e1 s2 m2 e2 :
  F.leb (S754_finite s1 m1 e1) (S754_finite s2 m2 e2) = true
  <-> match s1, s2 with
      | true, false => True
      | false, true => False
      | false, false => (e1 < e2 \/ (e1 = e2 /\ (m1 <= m2)%positive))%Z
      | true, true => (e2 < e1 \/ (e1 = e2 /\ (m2 <= m1)%positive))%Z
      end.
Proof.
  unfold F.leb, SFleb. simpl.
  change (Pos.compare_cont Eq m1 m2) with (Pos.compare m1 m2).
  destruct s1, s2;
    (destruct (Z.compare_spec e1 e2) as [E|E|E];
     [destruct (Pos.compare_spec m1 m2) as [M|M|M]| |]);
    simpl; split; intros H;
    try reflexivity; try discriminate; try exact I; try contradiction; try lia.
Qed.

Lemma leb_trans x y z :
  F.leb x y = true -> F.leb y z = true -> F.leb x z = true.
Proof.
  destruct x as [sx|sx| |sx mx ex], y as [sy|sy| |sy my ey], z as [sz|sz| |sz mz ez];
    try (intros; discriminate);
    try (try destruct sx; try destruct sy; try destruct sz;
         intros; (reflexivity || discriminate)).
  rewrite !leb_finite. destruct sx, sy, sz; try tauto; lia.
Qed.

End FloatOrder.

Section BeforeFacts.
Context {A : Type}.
Variable key : A -> float.

Lemma before_total a b : before key a b = true \/ before key b a = true.
Proof.
  unfold before.
  destruct (F.is_nan (key b)) eqn:Hb; [now left|].
  destruct (F.is_nan (key a)) eqn:Ha; [now right|]. simpl.
  destruct (FloatOrder.leb_total _ _ Ha Hb); auto.
Qed.

Lemma before_trans a b c :
  before key a b = true -> before key b c = true -> before key a c = true.
Proof.
  unfold before.
  destruct (F.is_nan (key c)) eqn:Hc; [reflexivity|]. simpl.
  destruct (F.is_nan (key b)) eqn:Hb; simpl; [discriminate 2|].
  destruct (F.is_nan (key a)) eqn:Ha; simpl; [discriminate 1|].
  intros H1 H2. now apply FloatOrder.leb_trans with (key b).
Qed.

(** On rows whose key is not NaN, the three comparisons pandas makes
    are the order of the specification. *)
Lemma before_notna a b :
  notna key a = true -> notna key b = true ->
  before key a b = F.leb (key b) (key a).
Proof.
  unfold notna, before. intros Ha Hb.
  apply negb_true_iff in Ha, Hb. now rewrite Ha, Hb.
Qed.

Lemma before_isna a b : isna_key key b = true -> before key a b = true.
Proof. unfold isna_key, before. now intros ->. Qed.

Lemma notna_isna a : isna_key key a = negb (notna key a).
Proof. unfold notna, isna_key. now rewrite negb_involutive. Qed.
End BeforeFacts.

(** ** Top-N selection *)

Section NLargestFacts.
Context {A : Type}.
Variable key : A -> float.

Local Abbreviation le := (before key).
Local Abbreviation le_total := (before_total key).
Local Abbreviation le_trans := (before_trans key).

(** The comparison of the fast path, on negated keys. *)
Local Abbreviation neg_le := (fun a b : A => F.leb (SFopp (key a)) (SFopp (key b))).

Lemma neg_le_before a b :
  notna key a = true -> notna key b = true ->
F.leb (SFopp (key a)) (SFopp (key b)) = before key a b.
Proof.
  intros Ha Hb. now rewrite FloatOrder.leb_opp, before_notna.
Qed.

Lemma filter_notna_In a s : In a (filter (notna key) s) -> notna key a = true.
Proof. intros H. now apply filter_In in H. Qed.

(** In the order of the specification the rows with a NaN key come
    last, in the order they have in the table. *)
Lemma stable_sort_before_split s :
  stable_sort (before key) s
  = stable_sort (before key) (filter (notna key) s) ++ filter (isna_key key) s.
Proof.
  pose proof (sorted_by_partition le (notna key) (stable_sort le s)) as H.
  rewrite !(filter_stable_sort le le_total le_trans) in H.
  rewrite H at 1.
  - f_equal. rewrite stable_sort_ties.
    + apply filter_ext. intros a. now rewrite notna_isna.
    + intros x y _ Hy. apply filter_In in Hy. destruct Hy as [_ Hy].
      apply before_isna. now rewrite notna_isna.
  - intros a b Ha Hb. unfold before, notna in *.
    apply negb_false_iff in Ha. apply negb_true_iff in Hb.
    now rewrite Ha, Hb.
  - apply stable_sort_sorted; [apply before_total | apply before_trans].
Qed.

(** The slow path: [sort_values(ascending=False)] is the stable
    descending sort. *)
Lemma sort_values_desc_spec s :
  sort_values_desc key s = stable_sort (before key) s.
Proof.
  unfold sort_values_desc. rewrite stable_sort_before_split. f_equal.
  rewrite (stable_sort_ext_in _ (converse le)).
  - rewrite (rev_stable_sort_rev (converse le)).
    + reflexivity.
    + intros a b. unfold converse. destruct (le_total a b); auto.
    + unfold converse. intros a b c H1 H2. now apply le_trans with b.
  - intros x y Hx Hy. apply in_rev in Hx, Hy.
    apply filter_notna_In in Hx, Hy.
    unfold converse. now rewrite before_notna.
Qed.

(** The fast path: sorting the candidates that reach the key of rank
    [n'] and keeping [n'] of them gives the first [n'] rows of the
    stable descending sort. *)
Lemma fast_path n s :
  0 < n ->
  let dropped := filter (notna key) s in
  let n' := Nat.min n (List.length dropped) in
  let kth_val :=
    if (0 <? List.length dropped)%nat
    then kth_smallest (List.map (fun a => SFopp (key a)) dropped) (n' - 1)
    else F.nan in
  firstn n' (stable_sort neg_le
               (filter (fun a => F.leb (SFopp (key a)) kth_val) dropped))
  = firstn n' (stable_sort (before key) dropped).
Proof.
  intros Hn. cbv zeta.
  remember (filter (notna key) s) as dropped eqn:ED.
  assert (Hd : forall a, In a dropped -> notna key a = true)
    by (intros a Ha; subst dropped; now apply filter_notna_In with s).
  clear ED. destruct dropped as [|d D']; [reflexivity|].
  set (dropped := d :: D') in *.
  assert (Hlen : 0 < List.length dropped) by (simpl; lia).
  set (n' := Nat.min n (List.length dropped)).
  set (T := stable_sort le dropped).
  assert (HT : forall a, In a T -> notna key a = true)
    by (intros a Ha; apply Hd; now apply stable_sort_In in Ha).
  assert (Hk : n' - 1 < List.length T)
    by (unfold T; rewrite stable_sort_length; unfold n'; lia).
  set (e := nth (n' - 1) T d).
  assert (He : notna key e = true) by (apply HT, nth_In, Hk).
  assert (Ekth : (if (0 <? List.length dropped)%nat
                  then kth_smallest (List.map (fun a => SFopp (key a)) dropped) (n' - 1)
                  else F.nan) = SFopp (key e)).
  { apply Nat.ltb_lt in Hlen. rewrite Hlen.
    unfold kth_smallest. rewrite stable_sort_map.
    rewrite (stable_sort_ext_in _ le) by (intros; now apply neg_le_before; apply Hd).
    fold T. rewrite (nth_indep _ F.nan (SFopp (key d))) by (now rewrite length_map).
    now rewrite (map_nth (fun a => SFopp (key a))). }
  rewrite Ekth.
  rewrite (stable_sort_ext_in neg_le le).
  2:{ intros x y Hx Hy. apply filter_In in Hx, Hy.
      apply neg_le_before; apply Hd; tauto. }
  rewrite <- (filter_stable_sort le le_total le_trans). fold T.
  rewrite (filter_ext_in _ (fun a => le a e)).
  2:{ intros a Ha. rewrite <- neg_le_before; [reflexivity | now apply HT | exact He]. }
  assert (ST : sorted_by le T) by (apply stable_sort_sorted; [apply before_total | apply before_trans]).
  pose proof (firstn_filter_rank le le_total d T ST (n' - 1) Hk) as R.
  fold e in R. replace (S (n' - 1)) with n' in R by (unfold n' in *; lia).
  exact R.
Qed.

(** [nlargest] is the stable descending sort truncated to [n]. *)
Theorem nlargest_spec n s : nlargest key n s = sort_truncate key n s.
Proof.
  unfold nlargest, sort_truncate.
  destruct n as [|m]; [reflexivity|].
  cbn [Nat.leb].
  destruct (List.length s <=? S m)%nat eqn:Hslow.
  - now rewrite sort_values_desc_spec.
  - cbv zeta.
    pose proof (fast_path (S m) s (Nat.lt_0_succ m)) as FP.
    cbv zeta in FP. unfold float in FP |- *.
    rewrite FP. clear FP.
    rewrite (stable_sort_before_split s).
    set (T := stable_sort (before key) (filter (notna key) s)).
    set (nans := filter (isna_key key) s).
    assert (HT : List.length T = List.length (filter (notna key) s))
      by apply stable_sort_length.
    rewrite <- HT.
    rewrite !firstn_app, firstn_firstn, length_firstn.
    replace (Init.Nat.min (S m) (Nat.min (S m) (List.length T)))
      with (Nat.min (S m) (List.length T)) by lia.
    replace (S m - Init.Nat.min (Nat.min (S m) (List.length T)) (List.length T))
      with (S m - List.length T) by lia.
    f_equal.
    destruct (Nat.le_gt_cases (S m) (List.length T)) as [L|L].
    + now rewrite Nat.min_l by lia.
    + rewrite !firstn_all2 by lia. reflexivity.
Qed.

(** Rows of one rating keep, in the sorted table, the order they have
    in the table. *)
Lemma stable_sort_before_stable v s :
  filter (fun a => F.eqb (key a) v) (stable_sort (before key) s)
  = filter (fun a => F.eqb (key a) v) s.
Proof.
  rewrite (filter_stable_sort le le_total le_trans).
  apply stable_sort_ties. intros x y Hx Hy.
  apply filter_In in Hx, Hy. destruct Hx as [_ Hx], Hy as [_ Hy].
  unfold F.eqb, SFeqb in Hx, Hy.
  destruct (SFcompare (key x) v) as [[| |]|] eqn:Ex; try discriminate.
  destruct (SFcompare (key y) v) as [[| |]|] eqn:Ey; try discriminate.
  assert (Nx : F.is_nan (key x) = false) by (destruct (key x); [reflexivity..|discriminate|reflexivity]).
  assert (Ny : F.is_nan (key y) = false) by (destruct (key y); [reflexivity..|discriminate|reflexivity]).
  unfold before. rewrite Nx, Ny. simpl.
  apply FloatOrder.leb_trans with v.
  - unfold F.leb, SFleb. now rewrite Ey.
  - unfold F.leb, SFleb. rewrite (FloatOrder.compare_antisym (key x) v), Ex.
    reflexivity.
Qed.
End NLargestFacts.

Lemma firstn_skipn_perm {A} n (l l' : list A) :
  Permutation l l' -> Permutation (firstn n l ++ skipn n l) l'.
Proof. now rewrite firstn_skipn. Qed.

(** The fast path on twelve films: the ten best, films of one rating in
    the order of the table, and the two worst left out. *)
Example top10_twelve :
  List.map movie_title (top10 Sample.twelve)
  = List.map Some ["i"; "e"; "b"; "c"; "g"; "a"; "f"; "j"; "l"; "k"].
Proof. vm_compute. reflexivity. Qed.

(** The slow path on the first five of them. *)
Example top10_five :
  List.map movie_title (top10 (firstn 5 Sample.twelve))
  = List.map Some ["e"; "b"; "c"; "a"; "d"].
Proof. vm_compute. reflexivity. Qed.

(** C6.  The top-10 extractor returns the ten rows of largest rating:
    the table sorted by descending rating, rows of equal rating keeping
    the order of the table (the first-encountered row first), truncated
    to ten rows; a table of fewer than ten rows is returned whole.  Rows
    without a rating come after all others. *)
Theorem top10_is_stable_sort_truncated (rs : list Row) :
  top10 rs = firstn 10 (stable_sort (before rating) rs)
  /\ sorted_by (before rating) (stable_sort (before rating) rs)
  /\ Permutation (stable_sort (before rating) rs) rs
  /\ (forall v, filter (fun a => F.eqb (rating a) v) (stable_sort (before rating) rs)
                = filter (fun a => F.eqb (rating a) v) rs)
  /\ List.length (top10 rs) = Nat.min 10 (List.length rs)
  /\ Permutation (top10 rs ++ skipn 10 (stable_sort (before rating) rs)) rs
  /\ top10 (firstn 9 rs) = stable_sort (before rating) (firstn 9 rs).
Proof.
  assert (E : forall l, top10 l = firstn 10 (stable_sort (before rating) l))
    by (intros l; unfold top10; now rewrite nlargest_spec).
  split; [apply E|]. split.
  { apply stable_sort_sorted; [apply before_total | apply before_trans]. }
  split; [apply stable_sort_perm|]. split.
  { intros v. apply stable_sort_before_stable. }
  split.
  { rewrite E, length_firstn, stable_sort_length. reflexivity. }
  split.
  { rewrite E. apply firstn_skipn_perm, stable_sort_perm. }
  rewrite E. apply firstn_all2.
  rewrite stable_sort_length, length_firstn. lia.
Qed.

(** ** Yearly mean *)

Module GroupByFacts.
Import GroupBy.

Lemma Zleb_total a b : Z.leb a b = true \/ Z.leb b a = true.
Proof. rewrite !Z.leb_le. lia. Qed.

Lemma Zleb_trans a b c : Z.leb a b = true -> Z.leb b c = true -> Z.leb a c = true.
Proof. rewrite !Z.leb_le. lia. Qed.

Lemma Zeqb_eq x y : Z.eqb x y = true <-> x = y.
Proof. apply Z.eqb_eq. Qed.

Lemma group_keys_NoDup years : NoDup (group_keys years).
Proof.
  unfold group_keys. eapply Permutation_NoDup.
  - apply Permutation_sym, stable_sort_perm.
  - apply (unique_NoDup _ Zeqb_eq).
Qed.

Lemma group_keys_In years y : In y (group_keys years) <-> In (Some y) years.
Proof.
  unfold group_keys.
  now rewrite stable_sort_In, (unique_In _ Zeqb_eq), dropna_In.
Qed.

(** Distinct keys in ascending order are in strictly ascending order. *)
Lemma sorted_NoDup_strict l :
  sorted_by Z.leb l -> NoDup l -> StronglySorted Z.lt l.
Proof.
  unfold sorted_by. induction l as [|a l IH]; intros S N; [constructor|].
  apply StronglySorted_inv in S. destruct S as [S F].
  inversion N as [|? ? Ha N']; subst.
  constructor; [now apply IH|].
  rewrite Forall_forall in *. intros b Hb.
  specialize (F b Hb). apply Z.leb_le in F.
  assert (a <> b) by (intros ->; contradiction). lia.
Qed.

Lemma group_keys_ascending years : StronglySorted Z.lt (group_keys years).
Proof.
  apply sorted_NoDup_strict; [|apply group_keys_NoDup].
  apply stable_sort_sorted; [exact Zleb_total | exact Zleb_trans].
Qed.

(** Writing to the accumulator of the group of [v] changes the
    accumulator of [v] and no other. *)
Lemma update_index_of (g : Z -> acc) (f : acc -> acc) v keys :
  NoDup keys ->
  match index_of v keys with
  | Some k => update k f (List.map g keys)
  | None => List.map g keys
  end
  = List.map (fun y => if Z.eqb v y then f (g y) else g y) keys.
Proof.
  induction keys as [|k0 ks IH]; intros N; [reflexivity|].
  inversion N as [|? ? Hk0 N']; subst. specialize (IH N'). simpl.
  destruct (Z.eqb_spec v k0) as [->|Hv].
  - simpl. f_equal. apply map_ext_in. intros y Hy.
    destruct (Z.eqb_spec k0 y) as [->|_]; [contradiction | reflexivity].
  - destruct (index_of v ks) as [k|]; simpl; now rewrite IH.
Qed.

(** The accumulators after the pass, started from [g]: each group has
    read the ratings of its rows, in the order of the rows. *)
Lemma fold_step keys rs : NoDup keys -> forall g : Z -> acc,
  fold_left step
    (List.map (fun r => (label keys (year r), rating r)) rs)
    (List.map g keys)
  = List.map (fun y => fold_left accumulate (ratings_of_year y rs) (g y)) keys.
Proof.
  intros N. induction rs as [|r rs IH]; intros g; [reflexivity|].
  cbn [List.map fold_left].
  set (g' := fun y =>
         match year r with
         | Some v => if Z.eqb v y then accumulate (g y) (rating r) else g y
         | None => g y
         end).
  assert (E : step (List.map g keys) (label keys (year r), rating r)
              = List.map g' keys).
  { unfold step, label, g'. cbn [fst snd].
    destruct (year r) as [v|]; [|reflexivity].
    apply (update_index_of g (fun a => accumulate a (rating r)) v keys N). }
  rewrite E, IH. apply map_ext. intros y.
  unfold ratings_of_year, g'. cbn [filter].
  destruct (year r) as [v|]; [|reflexivity].
  destruct (Z.eqb v y); reflexivity.
Qed.

Lemma combine_map_map {A B C} (f : A -> B) (h : A -> C) l :
  combine (List.map f l) (List.map h l) = List.map (fun a => (f a, h a)) l.
Proof. induction l as [|a l IH]; simpl; [reflexivity | now rewrite IH]. Qed.

Lemma repeat_map {A B} (b : B) (l : list A) :
  repeat b (List.length l) = List.map (fun _ => b) l.
Proof. induction l as [|a l IH]; simpl; [reflexivity | now rewrite IH]. Qed.

Lemma combine_self_map {A B} (f : A -> B) l :
  combine l (List.map f l) = List.map (fun a => (a, f a)) l.
Proof. induction l as [|a l IH]; simpl; [reflexivity | now rewrite IH]. Qed.

Lemma year_avg_groups rs :
  year_avg rs
  = List.map (fun y => (y, mean (ratings_of_year y rs)))
      (group_keys (List.map year rs)).
Proof.
  unfold year_avg, group_mean, mean. cbv zeta.
  set (keys := group_keys (List.map year rs)).
  rewrite combine_map_map, repeat_map.
  rewrite (fold_step keys rs (group_keys_NoDup _)).
  rewrite List.map_map. apply combine_self_map.
Qed.

End GroupByFacts.

(** C7.  The yearly-mean derivation gives one point per distinct year of
    the rows, in ascending order of the year, whose value is the mean of
    the ratings of the rows of that year (their sum, accumulated in the
    order of the rows, divided by their number).  The rows (2000, 8.0),
    (2000, 6.0), (2001, 9.0) give (2000, 7.0), (2001, 9.0). *)
Theorem year_avg_is_mean_per_year (rs : list Row) :
  (exists years,
      year_avg rs
      = List.map (fun y => (y, GroupBy.mean (ratings_of_year y rs))) years
      /\ StronglySorted Z.lt years
      /\ forall y, In y years <-> observed_year rs y)
  /\ List.map rating Sample.three_ratings = [F.of_Z 8; F.of_Z 6; F.of_Z 9]
  /\ year_avg Sample.three_ratings = [(2000%Z, F.of_Z 7); (2001%Z, F.of_Z 9)].
Proof.
  split.
  - exists (GroupBy.group_keys (List.map year rs)). split; [|split].
    + apply GroupByFacts.year_avg_groups.
    + apply GroupByFacts.group_keys_ascending.
    + intros y. rewrite GroupByFacts.group_keys_In, in_map_iff.
      unfold observed_year. split; intros (r & H1 & H2); exists r; tauto.
  - split; vm_compute; reflexivity.
Qed.

(** ** Derived metrics: missing columns and empty views *)

(** Line 69 reads the [censor] column without testing for it. *)
Lemma derive_without_censor df :
  has_column "censor" df = false -> derive df = Raise (KeyError "censor").
Proof.
  intros H. unfold derive, derive_censor_group, getitem_censor.
  now rewrite H.
Qed.

Lemma apply_cells_nil {B} (f : cell -> result B) : apply_cells f [] = Ok [].
Proof. reflexivity. Qed.

(** With a [censor] column, an empty view raises nothing and draws no
    chart: each chart tests the number of rows. *)
Lemma derive_empty_view df :
  has_column "censor" df = true -> rows df = [] -> derive df = Ok no_charts.
Proof.
  intros H E. unfold derive, derive_censor_group, getitem_censor.
  rewrite H, E. cbn [List.map apply_cells bind zip_rows].
  unfold chart_top10, chart_year_avg, chart_runtime, chart_censor, gross_guard, len.
  cbn [rows List.length Nat.ltb Nat.leb]. rewrite !andb_false_r. reflexivity.
Qed.

(** C2.  The script on a table that has no censorship-code column: the
    genre and year filters pass, then line 69 raises KeyError, which
    nothing catches.  (The specification asks that an absent column only disables
    what depends on it.) *)
Theorem script_without_censor_raises :
  has_column "censor"
    {| columns := normalize (columns Sample.no_censor); rows := rows Sample.no_censor |}
  = false
  /\ script Sample.defaults Sample.no_censor = Raise (KeyError "censor")
  /\ (exists charts, script Sample.defaults Sample.with_censor = Ok charts).
Proof.
  split; [reflexivity|]. split; [reflexivity|].
  eexists. vm_compute. reflexivity.
Qed.

(** C8.  A filter state that matches no row, on a table without a censor
    column: the filtered view is empty, and line 69 still raises KeyError
    before any chart is reached.  (The specification asks that every chart
    derivation give an empty or absent result without raising.) *)
Theorem empty_view_without_censor_raises :
  (exists st, sidebar_state Sample.drama_2001
                {| columns := normalize (columns Sample.no_censor);
                   rows := rows Sample.no_censor |} = Ok st
              /\ rows (applyFilters
                         {| columns := normalize (columns Sample.no_censor);
                            rows := rows Sample.no_censor |} st) = [])
  /\ script Sample.drama_2001 Sample.no_censor = Raise (KeyError "censor")
  /\ script Sample.drama_2001 Sample.with_censor = Ok no_charts.
Proof.
  split; [|split]; [|reflexivity|reflexivity].
  eexists. split; reflexivity.
Qed.

(** ** The theorems at a sample table *)

(** C10 on the sample table: it has a genre column; the options are "All",
    "Comedy", "Drama"; selecting "Drama" leaves rows of that genre only;
    selecting "All" leaves the table as it is. *)
Lemma main_genres_and_selection_sample :
  has_column "main_genre" Sample.films = true
  /\ main_genres Sample.films = ["All"; "Comedy"; "Drama"]
  /\ Forall (fun r => main_genre r = Some "Drama")
       (rows (genre_filter "Drama" Sample.films))
  /\ genre_filter "All" Sample.films = Sample.films.
Proof.
  split; [reflexivity|]. split; [reflexivity|].
  destruct (main_genres_and_selection Sample.films eq_refl) as (_ & Hsel & Hall).
  split; [|exact Hall].
  apply (Hsel "Drama"). discriminate.
Defined.

(** * Further properties of the pipeline *)

(** ** Year bounds and the filter block (lines 44-51) *)

Lemma fold_min_spec ys : forall y,
  let m := fold_left Z.min ys y in
  (m = y \/ In m ys) /\ (m <= y)%Z /\ forall z, In z ys -> (m <= z)%Z.
Proof.
  induction ys as [|a ys IH]; intros y; simpl.
  - split; [now left|]. split; [lia | contradiction].
  - destruct (IH (Z.min y a)) as (H1 & H2 & H3). split; [|split].
    + destruct H1 as [H1|H1]; [|now right; right].
      rewrite H1. destruct (Z.min_spec y a) as [[_ E]|[_ E]]; rewrite E; auto.
    + lia.
    + intros z [<-|Hz]; [lia | now apply H3].
Qed.

Lemma fold_max_spec ys : forall y,
  let m := fold_left Z.max ys y in
  (m = y \/ In m ys) /\ (y <= m)%Z /\ forall z, In z ys -> (z <= m)%Z.
Proof.
  induction ys as [|a ys IH]; intros y; simpl.
  - split; [now left|]. split; [lia | contradiction].
  - destruct (IH (Z.max y a)) as (H1 & H2 & H3). split; [|split].
    + destruct H1 as [H1|H1]; [|now right; right].
      rewrite H1. destruct (Z.max_spec y a) as [[_ E]|[_ E]]; rewrite E; auto.
    + lia.
    + intros z [<-|Hz]; [lia | now apply H3].
Qed.

Lemma observed_year_dropna rs y :
  observed_year rs y <-> In y (dropna (List.map year rs)).
Proof.
  rewrite dropna_In, in_map_iff. unfold observed_year.
  split; intros (r & H1 & H2); exists r; tauto.
Qed.

Lemma year_bounds_ok df lo hi :
  year_bounds df = Ok (lo, hi) ->
  (lo <= hi)%Z
  /\ observed_year (rows df) lo /\ observed_year (rows df) hi
  /\ forall r y, In r (rows df) -> year r = Some y -> (lo <= y <= hi)%Z.
Proof.
  unfold year_bounds.
  destruct (dropna (List.map year (rows df))) as [|y0 ys] eqn:E; [discriminate|].
  intros [= <- <-].
  destruct (fold_min_spec ys y0) as (M1 & M2 & M3).
  destruct (fold_max_spec ys y0) as (X1 & X2 & X3).
  assert (In0 : forall y, In y (y0 :: ys) <-> observed_year (rows df) y)
    by (intros y; now rewrite observed_year_dropna, E).
  split; [lia|]. split; [|split].
  - apply In0. cbv zeta in M1. destruct M1 as [M1|M1]; [left; now symmetry | now right].
  - apply In0. cbv zeta in X1. destruct X1 as [X1|X1]; [left; now symmetry | now right].
  - intros r y Hr Hy.
    assert (Hin : In y (y0 :: ys)) by (apply In0; now exists r).
    destruct Hin as [<-|Hin]; [lia|].
    specialize (M3 y Hin). specialize (X3 y Hin). lia.
Qed.

Lemma year_bounds_raise df e :
  year_bounds df = Raise e ->
  e = ValueError /\ forall r, In r (rows df) -> year r = None.
Proof.
  unfold year_bounds.
  destruct (dropna (List.map year (rows df))) as [|y0 ys] eqn:E; [|discriminate].
  intros [= <-]. split; [reflexivity|].
  intros r Hr. destruct (year r) as [y|] eqn:Hy; [|reflexivity].
  assert (H : In y (dropna (List.map year (rows df))))
    by (apply observed_year_dropna; now exists r).
  rewrite E in H. contradiction.
Qed.

(** X1.  The bounds of the year slider are the smallest and the largest
    year of the table: both are years of rows, the first is no larger than
    the second, and every year of a row lies between them.  When no row
    has a year (an empty table, or a year column that is missing
    throughout), computing the bounds raises ValueError. *)
Theorem year_bounds_spec (df : DataFrame) :
  match year_bounds df with
  | Ok (lo, hi) =>
      (lo <= hi)%Z
      /\ observed_year (rows df) lo /\ observed_year (rows df) hi
      /\ forall r y, In r (rows df) -> year r = Some y -> (lo <= y <= hi)%Z
  | Raise e =>
      e = ValueError /\ forall r, In r (rows df) -> year r = None
  end.
Proof.
  destruct (year_bounds df) as [[lo hi]|e] eqn:E.
  - now apply year_bounds_ok.
  - now apply year_bounds_raise.
Qed.

Lemma keeps_default df b r :
  has_column "year" df = true -> year_bounds df = Ok b -> In r (rows df) ->
  keeps df {| selected_main_genre := "All"; selected_year_range := b |} r
  = has_year r.
Proof.
  intros Hcol Hb Hr. destruct b as [lo hi].
  destruct (year_bounds_ok df lo hi Hb) as (_ & _ & _ & W).
  unfold keeps, has_year. rewrite Hcol. cbn [selected_main_genre selected_year_range fst snd].
  replace (if has_column "main_genre" df
           then String.eqb "All" "All" || genre_eq "All" (main_genre r) else true)
    with true by (destruct (has_column "main_genre" df); reflexivity).
  cbn [andb]. destruct (year r) as [y|] eqn:Hy; [|reflexivity].
  simpl. specialize (W r y Hr Hy).
  apply andb_true_iff. rewrite !Z.leb_le. lia.
Qed.

(** X2.  The default view -- genre "All" and the full year range -- is
    not the whole table: on a table with a year column it keeps the rows
    that have a year, in their order, and drops every row whose year is
    missing. *)
Theorem default_view_drops_missing_years (df : DataFrame) (b : Z * Z)
  (Hcol : has_column "year" df = true) (Hb : year_bounds df = Ok b) :
  rows (applyFilters df {| selected_main_genre := "All"; selected_year_range := b |})
  = filter has_year (rows df).
Proof.
  rewrite applyFilters_rows. apply filter_ext_in.
  intros r Hr. now apply keeps_default.
Qed.

Lemma default_view_sample :
  has_column "year" Sample.films = true
  /\ year_bounds Sample.films = Ok (2000%Z, 2001%Z)
  /\ rows (applyFilters Sample.films
             {| selected_main_genre := "All";
                selected_year_range := (2000%Z, 2001%Z) |})
     = filter has_year (rows Sample.films).
Proof.
  split; [reflexivity|]. split; [reflexivity|].
  apply (default_view_drops_missing_years Sample.films (2000%Z, 2001%Z));
    reflexivity.
Defined.





Lemma DataFrame_eq (a b : DataFrame) :
  columns a = columns b -> rows a = rows b -> a = b.
Proof. destruct a, b; simpl; intros -> ->; reflexivity. Qed.

Lemma keeps_columns df df' st r :
  columns df' = columns df -> keeps df' st r = keeps df st r.
Proof. intros E. unfold keeps, has_column. now rewrite E. Qed.

Lemma filter_idem {A} (p : A -> bool) l : filter p (filter p l) = filter p l.
Proof.
  rewrite filter_filter. apply filter_ext. intros x. now destruct (p x).
Qed.

(** X4.  Filtering is idempotent: applying the filters to a filtered view
    with the same filter state returns that view. *)
Theorem applyFilters_idempotent (df : DataFrame) (st : FilterState) :
  applyFilters (applyFilters df st) st = applyFilters df st.
Proof.
  apply DataFrame_eq.
  - now rewrite !applyFilters_columns.
  - rewrite (applyFilters_rows (applyFilters df st)).
    rewrite (filter_ext _ (keeps df st)).
    + rewrite applyFilters_rows. apply filter_idem.
    + intros r. apply keeps_columns, applyFilters_columns.
Qed.

Lemma subseq_filter_impl {A} (p q : A -> bool) l :
  (forall x, In x l -> p x = true -> q x = true) ->
  subseq (filter p l) (filter q l).
Proof.
  induction l as [|x l IH]; intros H; simpl; [constructor|].
  assert (IH' : subseq (filter p l) (filter q l))
    by (apply IH; intros y Hy; apply H; now right).
  destruct (p x) eqn:Ep.
  - rewrite (H x (or_introl eq_refl) Ep). now constructor.
  - destruct (q x); [now constructor | exact IH'].
Qed.

(** X5.  Widening the year range never loses a row: with the same genre
    selection, the view for a range is contained, in order, in the view
    for any range that includes it. *)
Theorem applyFilters_range_monotone (df : DataFrame) (genre : string)
  (lo hi lo' hi' : Z) (Hlo : (lo' <= lo)%Z) (Hhi : (hi <= hi')%Z) :
  subseq
    (rows (applyFilters df {| selected_main_genre := genre;
                              selected_year_range := (lo, hi) |}))
    (rows (applyFilters df {| selected_main_genre := genre;
                              selected_year_range := (lo', hi') |})).
Proof.
  rewrite !applyFilters_rows. apply subseq_filter_impl.
  intros r _. unfold keeps. cbn [selected_main_genre selected_year_range fst snd].
  rewrite !andb_true_iff. intros [G Y]. split; [exact G|].
  destruct (has_column "year" df); [|reflexivity].
  apply year_between_true in Y. destruct Y as (v & Hv & Hr).
  apply year_between_true. exists v. split; [exact Hv | lia].
Qed.

Lemma applyFilters_range_monotone_sample :
  (1999 <= 2000)%Z /\ (2000 <= 2001)%Z
  /\ subseq
       (rows (applyFilters Sample.films {| selected_main_genre := "All";
                                           selected_year_range := (2000, 2000)%Z |}))
       (rows (applyFilters Sample.films {| selected_main_genre := "All";
                                           selected_year_range := (1999, 2001)%Z |})).
Proof.
  split; [lia|]. split; [lia|].
  apply (applyFilters_range_monotone Sample.films "All" 2000 2000 1999 2001); lia.
Defined.

Lemma filter_nonempty {A} (p : A -> bool) l :
  filter p l <> [] <-> exists x, In x l /\ p x = true.
Proof.
  split.
  - destruct (filter p l) as [|x t] eqn:E; [congruence|]. intros _.
    exists x. apply filter_In. rewrite E. now left.
  - intros (x & Hx & Hp) E.
    assert (H : In x (filter p l)) by (now apply filter_In).
    rewrite E in H. contradiction.
Qed.

(** X6.  No option of the genre select box is dead, and none is missing:
    on a table with a genre column, a genre other than "All" is offered
    exactly when selecting it leaves at least one row at the genre
    filter. *)
Theorem offered_genre_selects_rows (df : DataFrame) (g : string)
  (Hcol : has_column "main_genre" df = true) (Hg : g <> "All") :
  In g (main_genres df) <-> rows (genre_filter g df) <> [].
Proof.
  rewrite genre_filter_rows, Hcol.
  apply String.eqb_neq in Hg. rewrite Hg. cbn [orb].
  rewrite filter_nonempty. unfold main_genres. simpl In.
  rewrite stable_sort_In, <- observed_genre_In. unfold observed_genre.
  apply String.eqb_neq in Hg.
  split.
  - intros [E|(r & Hr & Hm)]; [congruence|].
    exists r. split; [exact Hr | now apply genre_eq_true].
  - intros (r & Hr & Hm). right. exists r. split; [exact Hr|].
    now apply genre_eq_true.
Qed.

Lemma offered_genre_selects_rows_sample :
  has_column "main_genre" Sample.films = true /\ "Drama" <> "All"
  /\ (In "Drama" (main_genres Sample.films)
      <-> rows (genre_filter "Drama" Sample.films) <> []).
Proof.
  split; [reflexivity|]. split; [discriminate|].
  apply (offered_genre_selects_rows Sample.films "Drama");
    [reflexivity | discriminate].
Defined.

(** ** Censor classification and line 69 *)

Module StrMore.
Import Str.

Section MapComm.
Variable f : ascii -> ascii.
Hypothesis f_space : forall c, isspace (f c) = isspace c.

Lemma lstrip_map_comm s : lstrip (map f s) = map f (lstrip s).
Proof.
  induction s as [|c s IH]; [reflexivity|].
  simpl. rewrite f_space. now destruct (isspace c).
Qed.

Lemma rstrip_map_comm s : rstrip (map f s) = map f (rstrip s).
Proof.
  induction s as [|c s IH]; [reflexivity|].
  simpl. rewrite IH. destruct (rstrip s) as [|d t]; simpl.
  - rewrite f_space. now destruct (isspace c).
  - reflexivity.
Qed.

Lemma strip_map_comm s : strip (map f s) = map f (strip s).
Proof. unfold strip. now rewrite lstrip_map_comm, rstrip_map_comm. Qed.
End MapComm.

Lemma lower_space c : isspace (lower_char c) = isspace c.
Proof. StrFacts.all_chars c. Qed.

Lemma upper_space c : isspace (upper_char c) = isspace c.
Proof. StrFacts.all_chars c. Qed.

Lemma upper_lower_char c : upper_char (lower_char c) = upper_char c.
Proof. StrFacts.all_chars c. Qed.

Lemma upper_upper_char c : upper_char (upper_char c) = upper_char c.
Proof. StrFacts.all_chars c. Qed.

Lemma upper_strip_lower s : upper (strip (lower s)) = upper (strip s).
Proof.
  unfold upper, lower. rewrite (strip_map_comm _ lower_space), StrFacts.map_map.
  apply StrFacts.map_ext, upper_lower_char.
Qed.

Lemma upper_strip_upper s : upper (strip (upper s)) = upper (strip s).
Proof.
  unfold upper. rewrite (strip_map_comm _ upper_space), StrFacts.map_map.
  apply StrFacts.map_ext, upper_upper_char.
Qed.

Lemma strip_idem s : strip (strip s) = strip s.
Proof. apply StrFacts.stripped_strip, StrFacts.strip_stripped. Qed.

End StrMore.

Lemma clean_censor_text_eq s t :
  Str.upper (Str.strip s) = Str.upper (Str.strip t) ->
  clean_censor (Text s) = clean_censor (Text t).
Proof.
  intros E. unfold clean_censor. cbn [isna cell_strip bind]. now rewrite E.
Qed.

(** X7.  The classification of a censorship code does not depend on the
    case of its letters nor on the whitespace around it: lower-casing,
    upper-casing or trimming the text first gives the same group. *)
Theorem clean_censor_insensitive (s : string) :
  clean_censor (Text (Str.lower s)) = clean_censor (Text s)
  /\ clean_censor (Text (Str.upper s)) = clean_censor (Text s)
  /\ clean_censor (Text (Str.strip s)) = clean_censor (Text s).
Proof.
  split; [|split]; apply clean_censor_text_eq.
  - apply StrMore.upper_strip_lower.
  - apply StrMore.upper_strip_upper.
  - now rewrite StrMore.strip_idem.
Qed.

Lemma clean_censor_Ok x g : clean_censor x = Ok g -> In g censor_groups /\ is_int x = false.
Proof.
  destruct x as [|s|z]; intros H.
  - inversion H; subst. split; [simpl; tauto | reflexivity].
  - destruct (clean_censor_text s) as (g' & E & _ & G).
    rewrite E in H. inversion H; subst. now split.
  - discriminate H.
Qed.

Lemma clean_censor_Raise x e : clean_censor x = Raise e -> e = AttributeError /\ is_int x = true.
Proof.
  destruct x as [|s|z]; intros H.
  - discriminate H.
  - destruct (clean_censor_text s) as (g' & E & _). rewrite E in H. discriminate H.
  - inversion H. now split.
Qed.

(** [apply] succeeds exactly when no cell is a number. *)
Lemma apply_cells_clean_censor col :
  match apply_cells clean_censor col with
  | Ok gs =>
      existsb is_int col = false
      /\ Forall2 (fun x g => clean_censor x = Ok g) col gs
  | Raise e => e = AttributeError /\ existsb is_int col = true
  end.
Proof.
  induction col as [|x col IH]; [split; [reflexivity | constructor]|].
  cbn [apply_cells existsb].
  destruct (clean_censor x) as [g|e] eqn:Ex; cbn [bind].
  - destruct (clean_censor_Ok x g Ex) as [_ Hx]. rewrite Hx. cbn [orb].
    destruct (apply_cells clean_censor col) as [gs|e]; cbn [bind].
    + destruct IH as [H1 H2]. split; [exact H1 | now constructor].
    + exact IH.
  - destruct (clean_censor_Raise x e Ex) as [-> Hx]. rewrite Hx. now split.
Qed.

Lemma zip_rows_Forall2 {B} (set : Row -> B -> Row) (P : Row -> B -> Prop) rs vs :
  Forall2 P rs vs ->
  Forall2 (fun r r' => exists v, P r v /\ r' = set r v) rs (zip_rows set rs vs).
Proof.
  induction 1 as [|r v rs vs H F IH]; simpl; constructor; [|exact IH].
  now exists v.
Qed.

Lemma mem_add_column name c cols :
  Str.mem c (add_column name cols) = Str.mem c cols || String.eqb c name.
Proof.
  unfold add_column. destruct (Str.mem name cols) eqn:E.
  - destruct (String.eqb_spec c name) as [->|N]; [|now rewrite orb_false_r].
    now rewrite E.
  - unfold Str.mem. rewrite existsb_app. simpl. now rewrite orb_false_r.
Qed.

Lemma derive_censor_group_inv df df' :
  derive_censor_group df = Ok df' ->
  columns df' = add_column "censor_group" (columns df)
  /\ Forall2 (fun r r' => exists g,
                (clean_censor (censor r) = Ok g /\ In g censor_groups)
                /\ r' = with_censor_group r g)
       (rows df) (rows df').
Proof.
  intros H. unfold derive_censor_group, getitem_censor in H.
  destruct (has_column "censor" df); [|discriminate H]. cbn [bind] in H.
  pose proof (apply_cells_clean_censor (List.map censor (rows df))) as A.
  destruct (apply_cells clean_censor (List.map censor (rows df))) as [gs|e];
    [|discriminate H].
  cbn [bind] in H. inversion H; subst df'; clear H.
  destruct A as [_ A]. cbn [columns rows]. split; [reflexivity|].
  apply zip_rows_Forall2.
  clear -A. revert gs A. induction (rows df) as [|r rs IH]; intros gs A;
    inversion A; subst; constructor; auto.
  split; [assumption|]. now apply clean_censor_Ok with (censor r).
Qed.

(** X8.  When line 69 succeeds it adds the column [censor_group] and
    keeps every column the view had; the view keeps its rows, in their
    order, each with its censor group -- one of the four -- written into
    the new column and nothing else changed. *)
Theorem derive_censor_group_ok (df df' : DataFrame)
  (H : derive_censor_group df = Ok df') :
  has_column "censor_group" df' = true
  /\ (forall c, has_column c df = true -> has_column c df' = true)
  /\ Forall2 (fun r r' => exists g,
                (clean_censor (censor r) = Ok g /\ In g censor_groups)
                /\ r' = with_censor_group r g)
       (rows df) (rows df').
Proof.
  destruct (derive_censor_group_inv df df' H) as [C R].
  unfold has_column. rewrite C. split; [|split].
  - now rewrite mem_add_column, String.eqb_refl, orb_true_r.
  - intros c Hc. now rewrite mem_add_column, Hc.
  - exact R.
Qed.

Lemma derive_censor_group_ok_sample :
  exists df', derive_censor_group Sample.films = Ok df'
              /\ has_column "censor_group" df' = true.
Proof.
  eexists. split; [reflexivity|].
  exact (proj1 (derive_censor_group_ok Sample.films _ eq_refl)).
Defined.



(** ** The script as a whole *)




(** ** The samples of charts 4 and 5 *)

Module FloatMore.

Lemma shr_1_nonneg mrs : (0 <= shr_m mrs)%Z -> (0 <= shr_m (shr_1 mrs))%Z.
Proof.
  destruct mrs as [m r s]. simpl.
  destruct m as [|[p|p|]|[p|p|]]; simpl; lia.
Qed.

Lemma iter_shr_1_nonneg p : forall mrs,
  (0 <= shr_m mrs)%Z -> (0 <= shr_m (iter_pos shr_1 p mrs))%Z.
Proof.
  induction p as [p IH|p IH|]; intros mrs H; simpl.
  - apply IH, IH, shr_1_nonneg, H.
  - apply IH, IH, H.
  - apply shr_1_nonneg, H.
Qed.

Lemma shr_fexp_nonneg m e l :
  (0 <= m)%Z -> (0 <= shr_m (fst (shr_fexp F.prec F.emax m e l)))%Z.
Proof.
  intros H. unfold shr_fexp, shr.
  assert (H0 : (0 <= shr_m (shr_record_of_loc m l))%Z)
    by (destruct l as [|[| |]]; exact H).
  destruct (fexp F.prec F.emax (Zdigits2 m + e) - e)%Z; simpl;
    [exact H0 | now apply iter_shr_1_nonneg | exact H0].
Qed.

Lemma round_nearest_even_nonneg m l :
  (0 <= m)%Z -> (0 <= round_nearest_even m l)%Z.
Proof.
  intros H. unfold round_nearest_even.
  destruct l as [|[| |]]; try destruct (Z.even m); lia.
Qed.

(** Rounding a mantissa that is not negative never gives NaN. *)
Lemma binary_round_aux_not_nan sx mx ex lx :
  (0 <= mx)%Z -> F.is_nan (binary_round_aux F.prec F.emax sx mx ex lx) = false.
Proof.
  intros H. unfold binary_round_aux.
  pose proof (shr_fexp_nonneg mx ex lx H) as H1.
  destruct (shr_fexp F.prec F.emax mx ex lx) as [mrs' e']. simpl in H1.
  pose proof (shr_fexp_nonneg _ e' loc_Exact
                (round_nearest_even_nonneg _ (loc_of_shr_record mrs') H1)) as H2.
  destruct (shr_fexp F.prec F.emax
              (round_nearest_even (shr_m mrs') (loc_of_shr_record mrs')) e' loc_Exact)
    as [mrs'' e'']. simpl in H2.
  destruct (shr_m mrs'') as [|p|p]; [reflexivity| |lia].
  now destruct (e'' <=? F.emax - F.prec)%Z.
Qed.

Lemma binary_normalize_not_nan m e s :
  F.is_nan (binary_normalize F.prec F.emax m e s) = false.
Proof.
  destruct m as [|p|p]; [reflexivity| |]; simpl; unfold binary_round;
    destruct (shl_align _ _ _) as [mz ez]; apply binary_round_aux_not_nan; lia.
Qed.

Lemma mul_not_nan x s m e :
  F.is_nan x = false -> F.is_nan (F.mul x (S754_finite s m e)) = false.
Proof.
  destruct x as [sx|sx| |sx mx ex]; intros H; try discriminate; try reflexivity.
  unfold F.mul, SFmul. apply binary_round_aux_not_nan. lia.
Qed.

Lemma div_not_nan x s m e :
  F.is_nan x = false -> F.is_nan (F.div x (S754_finite s m e)) = false.
Proof.
  destruct x as [sx|sx| |sx mx ex]; intros H; try discriminate; try reflexivity.
  unfold F.div, SFdiv, SFdiv_core_binary.
  set (e' := Z.min _ _). set (m' := match (ex - e - e')%Z with
                                    | Zpos _ => Z.shiftl (Zpos mx) (ex - e - e')
                                    | Z0 => Zpos mx
                                    | Zneg _ => 0%Z
                                    end).
  assert (Hm : (0 <= m')%Z).
  { unfold m'. destruct (ex - e - e')%Z eqn:E; try lia.
    apply Z.shiftl_nonneg. lia. }
  pose proof (Z.div_pos m' (Zpos m) Hm ltac:(lia)) as Hq.
  unfold Z.div in Hq.
  destruct (Z.div_eucl m' (Zpos m)) as [q r]. simpl in Hq.
  now apply binary_round_aux_not_nan.
Qed.

Lemma rint_not_nan x : F.is_nan x = false -> F.is_nan (F.rint x) = false.
Proof.
  destruct x as [sx|sx| |sx mx ex]; intros H; try discriminate; try reflexivity.
  unfold F.rint. destruct (F.nearest_integer mx ex); [reflexivity| |];
    apply binary_normalize_not_nan.
Qed.

Lemma ten_finite : exists m e, F.of_Z 10 = S754_finite false m e.
Proof. do 2 eexists. vm_compute. reflexivity. Qed.

(** Rounding to one decimal keeps a value that is not NaN from NaN. *)
Lemma round1_not_nan x : F.is_nan x = false -> F.is_nan (F.round1 x) = false.
Proof.
  intros H. unfold F.round1. destruct ten_finite as (m & e & ->).
  apply div_not_nan, rint_not_nan, mul_not_nan, H.
Qed.

End FloatMore.

(** X11.  Every row of the sample of chart 4 carries a gross value, and
    it is not NaN: the rows whose gross did not parse are left out and
    rounding to one decimal never loses a value.  The rows of the sample
    are rows of the view, in their order, changed in the derived column
    only. *)
Theorem gross_plot_values (df : DataFrame) :
  Forall (fun r => exists v, total_gross_millions r = Some v /\ F.is_nan v = false)
    (gross_plot (parse_gross_column df))
  /\ subseq
       (List.map (fun r => with_gross_millions r None)
          (gross_plot (parse_gross_column df)))
       (List.map (fun r => with_gross_millions r None) (rows df)).
Proof.
  rewrite gross_plot_rows.
  induction (rows df) as [|r rs [IH1 IH2]]; [split; constructor|].
  cbn [flat_map List.map].
  destruct (parse_gross (total_gross r)) as [f|]; cbn [app].
  - destruct (F.is_nan f) eqn:Hf; cbn [app List.map].
    + split; [exact IH1 | now constructor].
    + split.
      * constructor; [|exact IH1].
        exists (F.round1 f). split; [reflexivity|].
        now apply FloatMore.round1_not_nan.
      * now apply subseq_keep.
  - split; [exact IH1 | now constructor].
Qed.

Lemma chart_censor_parse_gross_column d :
  chart_censor (parse_gross_column d) = chart_censor d.
Proof.
  unfold chart_censor, parse_gross_column, has_column, len. cbn [columns rows].
  rewrite !mem_add_column, length_map, List.map_map.
  cbn [String.eqb Ascii.eqb Bool.eqb]. rewrite !orb_false_r.
  reflexivity.
Qed.

Lemma derive_censor_sample df c :
  derive df = Ok c ->
  exists d, derive_censor_group df = Ok d /\ censor_sample c = chart_censor d.
Proof.
  unfold derive. destruct (derive_censor_group df) as [d|e]; [|discriminate].
  cbn [bind]. intros [= <-]. exists d. split; [reflexivity|].
  cbn [censor_sample]. destruct (gross_guard d); [|reflexivity].
  apply chart_censor_parse_gross_column.
Qed.

(** X12.  When the charts are derived, chart 5 is drawn exactly when the
    view has a rating column and at least one row, and its sample then
    has one entry per row of the view, in the order of the rows -- the
    rows chart 4 left out included -- each the censor group of the row
    with its rating. *)
Theorem censor_sample_covers_view (df : DataFrame) (c : Charts)
  (H : derive df = Ok c) :
  exists l,
    censor_sample c
    = (if has_column "rating" df && (0 <? len df)%nat then Some l else None)
    /\ Forall2 (fun r p => snd p = rating r
                           /\ exists g, clean_censor (censor r) = Ok g
                                        /\ fst p = Text g)
         (rows df) l.
Proof.
  destruct (derive_censor_sample df c H) as (d & Hd & ->).
  destruct (derive_censor_group_inv df d Hd) as [C R].
  exists (List.map (fun r => (censor_group r, rating r)) (rows d)). split.
  - unfold chart_censor, has_column, len. rewrite C, !mem_add_column.
    rewrite String.eqb_refl, orb_true_r.
    replace (String.eqb "rating" "censor_group") with false by reflexivity.
    rewrite orb_false_r, (Forall2_length R). reflexivity.
  - clear -R. induction R as [|r r' rs rs' (g & [Hg _] & ->) _ IH];
      cbn [List.map]; constructor; [|exact IH].
    cbn [fst snd with_censor_group censor_group rating]. split; [reflexivity|].
    now exists g.
Qed.

Lemma censor_sample_covers_view_sample :
  exists c, derive Sample.films = Ok c
            /\ exists l, censor_sample c = Some l /\ List.length l = 2.
Proof.
  eexists. split; [vm_compute; reflexivity|].
  destruct (censor_sample_covers_view Sample.films _ eq_refl) as (l & E & F).
  exists l. split; [exact E|]. now rewrite <- (Forall2_length F).
Defined.

(** ** More on the top-N selection *)

Lemma sorted_by_app {A} (le : A -> A -> bool) l1 l2 :
  sorted_by le (l1 ++ l2) ->
  sorted_by le l1 /\ sorted_by le l2
  /\ forall a b, In a l1 -> In b l2 -> le a b = true.
Proof.
  unfold sorted_by. induction l1 as [|x l1 IH]; simpl; intros S.
  - split; [constructor|]. split; [exact S | contradiction].
  - apply StronglySorted_inv in S. destruct S as [S F].
    destruct (IH S) as (S1 & S2 & H). split; [|split].
    + constructor; [exact S1|]. apply Forall_app in F. tauto.
    + exact S2.
    + intros a b [<-|Ha] Hb; [|now apply H].
      rewrite Forall_forall in F. apply F, in_or_app. now right.
Qed.

(** The stable sort leaves a sorted list as it is. *)
Lemma stable_sort_sorted_id {A} (le : A -> A -> bool) l :
  sorted_by le l -> stable_sort le l = l.
Proof.
  unfold sorted_by. induction l as [|x l IH]; intros S; [reflexivity|].
  apply StronglySorted_inv in S. destruct S as [S F]. simpl.
  rewrite (IH S). destruct l as [|y l]; [reflexivity|]. simpl.
  apply Forall_inv in F. now rewrite F.
Qed.

Lemma In_firstn_In {A} n (l : list A) x : In x (firstn n l) -> In x l.
Proof.
  intros H. rewrite <- (firstn_skipn n l). apply in_or_app. now left.
Qed.

Lemma top10_sorted_prefix rs :
  top10 rs = firstn 10 (stable_sort (before rating) rs).
Proof. unfold top10. now rewrite nlargest_spec. Qed.

Lemma sorted_before rs : sorted_by (before rating) (stable_sort (before rating) rs).
Proof. apply stable_sort_sorted; [apply before_total | apply before_trans]. Qed.

(** X13.  No row left out of the top ten is better than a row in it:
    every selected row may stand before every row that was not selected,
    in descending order of the rating with the unrated rows last. *)
Theorem top10_dominates (rs : list Row) (a b : Row) :
  In a (top10 rs) ->
  In b (skipn 10 (stable_sort (before rating) rs)) ->
  before rating a b = true.
Proof.
  rewrite top10_sorted_prefix. intros Ha Hb.
  pose proof (sorted_before rs) as S.
  rewrite <- (firstn_skipn 10 (stable_sort (before rating) rs)) in S.
  apply sorted_by_app in S. destruct S as (_ & _ & H). now apply H.
Qed.

Lemma top10_dominates_sample :
  exists a b,
    In a (top10 Sample.twelve)
    /\ In b (skipn 10 (stable_sort (before rating) Sample.twelve))
    /\ before rating a b = true.
Proof.
  exists (Sample.film "i" "Drama" 2000 95), (Sample.film "h" "Drama" 2000 50).
  assert (Ha : In (Sample.film "i" "Drama" 2000 95) (top10 Sample.twelve))
    by (vm_compute; left; reflexivity).
  assert (Hb : In (Sample.film "h" "Drama" 2000 50)
                 (skipn 10 (stable_sort (before rating) Sample.twelve)))
    by (vm_compute; right; left; reflexivity).
  split; [exact Ha|]. split; [exact Hb|].
  exact (top10_dominates Sample.twelve _ _ Ha Hb).
Defined.

(** X14.  An unrated row enters the top ten only for want of rated rows:
    when at least ten rows of the view have a rating, every row of the
    top ten has one. *)
Theorem top10_rated_first (rs : list Row)
  (H : 10 <= List.length (filter (notna rating) rs)) :
  Forall (fun a => F.is_nan (rating a) = false) (top10 rs).
Proof.
  rewrite top10_sorted_prefix, stable_sort_before_split, firstn_app.
  rewrite stable_sort_length.
  replace (10 - List.length (filter (notna rating) rs)) with 0 by lia.
  rewrite firstn_O, app_nil_r. apply Forall_forall. intros a Ha.
  apply In_firstn_In, stable_sort_In, filter_In in Ha. destruct Ha as [_ Ha].
  unfold notna in Ha. now apply negb_true_iff in Ha.
Qed.

Lemma top10_rated_first_sample :
  10 <= List.length (filter (notna rating) Sample.twelve)
  /\ Forall (fun a => F.is_nan (rating a) = false) (top10 Sample.twelve).
Proof.
  assert (H : 10 <= List.length (filter (notna rating) Sample.twelve))
    by (vm_compute; repeat constructor).
  split; [exact H | exact (top10_rated_first Sample.twelve H)].
Defined.

Lemma sorted_by_firstn {A} (le : A -> A -> bool) n l :
  sorted_by le l -> sorted_by le (firstn n l).
Proof.
  intros S. rewrite <- (firstn_skipn n l) in S.
  now apply sorted_by_app in S.
Qed.

(** X15.  Selecting the top ten of a top ten changes nothing. *)
Theorem top10_idempotent (rs : list Row) : top10 (top10 rs) = top10 rs.
Proof.
  rewrite (top10_sorted_prefix (top10 rs)), (top10_sorted_prefix rs).
  rewrite stable_sort_sorted_id by apply sorted_by_firstn, sorted_before.
  rewrite firstn_firstn. reflexivity.
Qed.


(** ** More on the yearly mean *)



Lemma year_avg_years rs :
  List.map fst (year_avg rs) = GroupBy.group_keys (List.map year rs).
Proof.
  rewrite GroupByFacts.year_avg_groups, List.map_map. cbn [fst].
  apply List.map_id.
Qed.

(** X18.  The yearly means of a filtered view report years of the
    selected range only: on a table with a year column, every point of
    the chart of a view has its year between the two ends of the year
    selection. *)
Theorem year_avg_within_selection (df : DataFrame) (st : FilterState)
  (Hcol : has_column "year" df = true) :
  Forall (fun p => (fst (selected_year_range st) <= fst p
                    <= snd (selected_year_range st))%Z)
    (year_avg (rows (applyFilters df st))).
Proof.
  apply Forall_forall. intros p Hp.
  assert (Hy : In (fst p) (List.map fst (year_avg (rows (applyFilters df st)))))
    by now apply in_map.
  rewrite year_avg_years, GroupByFacts.group_keys_In, in_map_iff in Hy.
  destruct Hy as (r & Hr & Hin).
  rewrite applyFilters_rows in Hin. apply filter_In in Hin.
  destruct Hin as [_ K]. unfold keeps in K. rewrite Hcol in K.
  apply andb_true_iff in K. destruct K as [_ K].
  apply year_between_true in K. destruct K as (v & Hv & Hb).
  rewrite Hr in Hv. inversion Hv; subst. exact Hb.
Qed.

Lemma year_avg_within_selection_sample :
  has_column "year" Sample.films = true
  /\ Forall (fun p => (2001 <= fst p <= 2001)%Z)
       (year_avg (rows (applyFilters Sample.films
                          {| selected_main_genre := "All";
                             selected_year_range := (2001, 2001)%Z |}))).
Proof.
  split; [reflexivity|].
  exact (year_avg_within_selection Sample.films
           {| selected_main_genre := "All";
              selected_year_range := (2001, 2001)%Z |} eq_refl).
Defined.

Lemma NoDup_incl_length_le (l : list Z) (l' : list (option Z)) :
  NoDup l -> (forall y, In y l -> In (Some y) l') ->
  List.length l <= List.length l'.
Proof.
  intros N H.
  rewrite <- (length_map Some l).
  apply NoDup_incl_length.
  - clear H. induction N as [|a l Ha N IH]; simpl; constructor; [|exact IH].
    rewrite in_map_iff. intros (b & E & Hb). inversion E; subst. contradiction.
  - intros x Hx. apply in_map_iff in Hx. destruct Hx as (y & <- & Hy). now apply H.
Qed.

(** X19.  The chart of yearly means has no more points than the view has
    rows, and it has none exactly when no row of the view has a year: a
    view that is not empty can give an empty chart. *)
Theorem year_avg_points (rs : list Row) :
  List.length (year_avg rs) <= List.length rs
  /\ (year_avg rs = [] <-> forall r, In r rs -> year r = None).
Proof.
  split.
  - rewrite <- (length_map fst), year_avg_years, <- (length_map year rs).
    apply NoDup_incl_length_le; [apply GroupByFacts.group_keys_NoDup|].
    intros y Hy. now apply GroupByFacts.group_keys_In.
  - split.
    + intros E r Hr. destruct (year r) as [y|] eqn:Hy; [|reflexivity].
      assert (H : In y (List.map fst (year_avg rs))).
      { rewrite year_avg_years, GroupByFacts.group_keys_In, <- Hy. now apply in_map. }
      rewrite E in H. contradiction.
    + intros H. destruct (year_avg rs) as [|p t] eqn:E; [reflexivity|].
      assert (Hp : In (fst p) (List.map fst (year_avg rs)))
        by (rewrite E; now left).
      rewrite year_avg_years, GroupByFacts.group_keys_In, in_map_iff in Hp.
      destruct Hp as (r & Hr & Hin). rewrite (H r Hin) in Hr. discriminate.
Qed.

(** ** Column names and currency texts *)

Lemma normal_char_normalize c : normal_char (normalize_char c) = true.
Proof. StrFacts.all_chars c. Qed.

Lemma forall_chars_map p f s :
  (forall c, p (f c) = true) -> forall_chars p (Str.map f s) = true.
Proof.
  intros H. induction s as [|c s IH]; [reflexivity|].
  simpl. now rewrite H, IH.
Qed.

(** X20.  After normalisation there are as many column names as before,
    and each of them has no whitespace at either end, no space and no
    upper-case letter. *)
Theorem normalize_names_normal (cols : list string) :
  List.length (normalize cols) = List.length cols
  /\ Forall (fun c => Str.stripped c /\ forall_chars normal_char c = true)
       (normalize cols).
Proof.
  unfold normalize. split; [apply length_map|].
  apply Forall_forall. intros c Hc. apply in_map_iff in Hc.
  destruct Hc as (c0 & <- & _). rewrite normalize_name_map. split.
  - apply StrFacts.stripped_map; [exact normalize_char_keeps | apply StrFacts.strip_stripped].
  - apply forall_chars_map, normal_char_normalize.
Qed.

Module GrossMore.
Import Str.

Lemma remove_char_app a s t :
  remove_char a (s ++ t)%string = (remove_char a s ++ remove_char a t)%string.
Proof.
  induction s as [|c s IH]; [reflexivity|].
  simpl. destruct (Ascii.eqb a c); simpl; now rewrite IH.
Qed.

Lemma delete_currency_app s t :
  delete_currency (s ++ t)%string
  = (delete_currency s ++ delete_currency t)%string.
Proof. unfold delete_currency. now rewrite !remove_char_app. Qed.

Lemma delete_currency_char c s :
  currency_char c = true -> delete_currency (String c s) = delete_currency s.
Proof.
  unfold currency_char. rewrite !orb_true_iff, !Ascii.eqb_eq.
  intros [[->| ->]| ->]; reflexivity.
Qed.

Lemma parse_gross_deleted s :
  parse_gross (Some s)
  = match PyFloat.float_of_str (strip (delete_currency s)) with
    | Ok f => Some f
    | Raise _ => None
    end.
Proof.
  unfold parse_gross. cbn [str]. now rewrite parse_gross_text.
Qed.

Lemma append_nil_r s : (s ++ "")%string = s.
Proof. induction s as [|c s IH]; simpl; [reflexivity | now rewrite IH]. Qed.

(** What a digit is not. *)
Lemma digit_char c :
  PyFloat.is_digit c = true ->
  Ascii.eqb "$" c = false /\ Ascii.eqb "M" c = false /\ Ascii.eqb "," c = false
  /\ isspace c = false /\ Ascii.eqb c "_" = false
  /\ Ascii.eqb c "-" = false /\ Ascii.eqb c "+" = false
  /\ Ascii.eqb (lower_char c) "i" = false /\ Ascii.eqb (lower_char c) "n" = false.
Proof.
  destruct c as [[|] [|] [|] [|] [|] [|] [|] [|]]; intros H;
    vm_compute in H; try discriminate H; vm_compute; repeat split.
Qed.

Section Digits.
Variable ds : string.
Hypothesis all_digits : forall_chars PyFloat.is_digit ds = true.

Lemma digits_delete : delete_currency ds = ds.
Proof.
  unfold delete_currency. revert all_digits.
  induction ds as [|c s IH]; [reflexivity|].
  cbn [forall_chars]. intros H. apply andb_true_iff in H. destruct H as [Hc Hs].
  destruct (digit_char c Hc) as (E1 & E2 & E3 & _).
  cbn [remove_char]. rewrite E1. cbn [remove_char]. rewrite E2.
  cbn [remove_char]. rewrite E3. f_equal. now apply IH.
Qed.

Lemma digits_lstrip : lstrip ds = ds.
Proof.
  revert all_digits. destruct ds as [|c s]; [reflexivity|].
  cbn [forall_chars]. intros H. apply andb_true_iff in H. destruct H as [Hc _].
  destruct (digit_char c Hc) as (_ & _ & _ & E & _).
  apply StrFacts.lstrip_head, E.
Qed.

Lemma digits_rstrip : rstrip ds = ds.
Proof.
  revert all_digits. induction ds as [|c s IH]; [reflexivity|].
  cbn [forall_chars]. intros H. apply andb_true_iff in H. destruct H as [Hc Hs].
  destruct (digit_char c Hc) as (_ & _ & _ & E & _).
  cbn [rstrip]. rewrite (IH Hs). destruct s; [now rewrite E | reflexivity].
Qed.

Lemma digits_strip : strip ds = ds.
Proof. unfold strip. now rewrite digits_lstrip, digits_rstrip. Qed.

Lemma digits_drop_underscores : forall prev,
  Ascii.eqb prev "_" = false -> PyFloat.drop_underscores prev ds = Some ds.
Proof.
  revert all_digits. induction ds as [|c s IH]; intros H prev Hp.
  - cbn. now rewrite Hp.
  - cbn [forall_chars] in H. apply andb_true_iff in H. destruct H as [Hc Hs].
    destruct (digit_char c Hc) as (_ & _ & _ & _ & E & _).
    cbn [PyFloat.drop_underscores]. rewrite E, Hc, Hp. cbn [negb andb].
    now rewrite (IH Hs c E).
Qed.

Lemma digits_span : PyFloat.span_digits ds = (ds, EmptyString).
Proof.
  revert all_digits. induction ds as [|c s IH]; [reflexivity|].
  cbn [forall_chars]. intros H. apply andb_true_iff in H. destruct H as [Hc Hs].
  cbn [PyFloat.span_digits]. now rewrite Hc, (IH Hs).
Qed.

Lemma digits_value_nonneg : forall acc,
  (0 <= acc)%Z -> (0 <= PyFloat.digits_value acc ds)%Z.
Proof.
  clear all_digits. induction ds as [|c s IH]; intros acc H; [exact H|].
  cbn [PyFloat.digits_value]. apply IH. unfold PyFloat.digit_value. lia.
Qed.
End Digits.

Lemma of_decimal_integer m :
  (0 <= m)%Z -> F.of_decimal false m 0 = F.of_Z m.
Proof.
  intros H. destruct m as [|p|p]; [reflexivity| |lia].
  unfold F.of_decimal, F.of_Z. cbn [cond_Zopp].
  now rewrite Z.pow_0_r, Z.mul_1_r.
Qed.

(** [float] on a text of digits is the float of the number the digits
    denote. *)
Lemma float_of_digits ds :
  ds <> EmptyString -> forall_chars PyFloat.is_digit ds = true ->
  PyFloat.float_of_str ds = Ok (F.of_Z (PyFloat.digits_value 0 ds)).
Proof.
  intros Hne Hd. unfold PyFloat.float_of_str.
  rewrite (digits_strip ds Hd), (digits_drop_underscores ds Hd) by reflexivity.
  destruct ds as [|c s]; [congruence|].
  pose proof Hd as Hd'. cbn [forall_chars] in Hd'.
  apply andb_true_iff in Hd'. destruct Hd' as [Hc Hs].
  destruct (digit_char c Hc) as (_ & _ & _ & _ & _ & Em & Ep & Ei & En).
  assert (Esign : PyFloat.split_sign (String c s) = (false, String c s)).
  { clear -Em Ep. unfold PyFloat.split_sign.
    destruct c as [[|] [|] [|] [|] [|] [|] [|] [|]];
      try reflexivity; vm_compute in Em, Ep; discriminate. }
  rewrite Esign.
  assert (Ew : forall w, (w = "inf" \/ w = "infinity" \/ w = "nan")%string ->
                         String.eqb (lower (String c s)) w = false).
  { intros w [-> |[-> | ->]]; cbn [lower map String.eqb];
      rewrite ?Ei, ?En; reflexivity. }
  rewrite !Ew by tauto. cbn [orb].
  unfold PyFloat.parse_decimal. rewrite (digits_span _ Hd).
  rewrite append_nil_r. cbn [String.length Z.of_nat Z.opp].
  rewrite of_decimal_integer by (apply digits_value_nonneg; lia).
  reflexivity.
Qed.

End GrossMore.

(** X21.  The currency symbol, the letter M and the thousands separator
    are ignored wherever they stand in the text: a text with one of them
    inserted anywhere parses to the same value, or fails alike. *)
Theorem parse_gross_ignores_symbols (s1 s2 : string) (c : ascii)
  (Hc : currency_char c = true) :
  parse_gross (Some (s1 ++ String c s2)%string) = parse_gross (Some (s1 ++ s2)%string).
Proof.
  rewrite !GrossMore.parse_gross_deleted, !GrossMore.delete_currency_app.
  now rewrite (GrossMore.delete_currency_char c s2 Hc).
Qed.

Lemma parse_gross_ignores_symbols_sample :
  currency_char "," = true
  /\ parse_gross (Some "$1,234M") = parse_gross (Some "$1234M").
Proof.
  split; [reflexivity|].
  exact (parse_gross_ignores_symbols "$1" "234M" "," eq_refl).
Defined.

(** X22.  A whole amount written in digits between the dollar sign and
    the letter M parses to the float of that number: the digits are read
    back exactly (or rounded to the nearest float when they have more
    than 53 bits). *)
Theorem parse_gross_whole_amount (ds : string)
  (Hne : ds <> EmptyString)
  (Hd : forall_chars PyFloat.is_digit ds = true) :
  parse_gross (Some ("$" ++ ds ++ "M")%string)
  = Some (F.of_Z (PyFloat.digits_value 0 ds)).
Proof.
  rewrite GrossMore.parse_gross_deleted, !GrossMore.delete_currency_app.
  rewrite (GrossMore.digits_delete ds Hd).
  change (delete_currency "$") with EmptyString.
  change (delete_currency "M") with EmptyString.
  cbn [String.append]. rewrite GrossMore.append_nil_r.
  rewrite (GrossMore.digits_strip ds Hd).
  now rewrite (GrossMore.float_of_digits ds Hne Hd).
Qed.

Lemma parse_gross_whole_amount_sample :
  "1234" <> EmptyString
  /\ forall_chars PyFloat.is_digit "1234" = true
  /\ parse_gross (Some "$1234M") = Some (F.of_Z 1234).
Proof.
  split; [discriminate|]. split; [reflexivity|].
  exact (parse_gross_whole_amount "1234" ltac:(discriminate) eq_refl).
Defined.

(** ** The two filters and the empty view *)

Lemma year_filter_columns range df : columns (year_filter range df df) = columns df.
Proof. unfold year_filter. now destruct (has_column "year" df). Qed.

Lemma year_filter_rows range df :
  rows (year_filter range df df)
  = filter (fun r => if has_column "year" df
                     then year_between (fst range) (snd range) (year r)
                     else true) (rows df).
Proof.
  unfold year_filter. destruct (has_column "year" df); simpl.
  - apply boolean_index_map.
  - now rewrite filter_true.
Qed.

(** X23.  The order of the two filters does not matter: filtering by
    year first and by genre second gives the view the script computes by
    genre first and year second. *)
Theorem filters_commute (df : DataFrame) (st : FilterState) :
  genre_filter (selected_main_genre st)
    (year_filter (selected_year_range st) df df)
  = applyFilters df st.
Proof.
  apply DataFrame_eq.
  - now rewrite genre_filter_columns, year_filter_columns, applyFilters_columns.
  - rewrite genre_filter_rows, year_filter_rows, filter_filter, applyFilters_rows.
    apply filter_ext. intros r. unfold keeps, has_column.
    rewrite year_filter_columns. apply andb_comm.
Qed.

(** X24.  On an empty view the charts are all skipped and nothing is
    raised, provided the view has a [censor] column; without that column
    line 69 raises KeyError on the empty view as on any other. *)
Theorem derive_on_empty_view (df : DataFrame) (Hempty : rows df = []) :
  derive df = if has_column "censor" df then Ok no_charts
              else Raise (KeyError "censor").
Proof.
  destruct (has_column "censor" df) eqn:Hcol.
  - now apply derive_empty_view.
  - now apply derive_without_censor.
Qed.

Lemma derive_on_empty_view_sample :
  rows {| columns := ["rating"; "censor"]; rows := [] |} = []
  /\ derive {| columns := ["rating"; "censor"]; rows := [] |} = Ok no_charts.
Proof.
  split; [reflexivity|].
  exact (derive_on_empty_view {| columns := ["rating"; "censor"]; rows := [] |} eq_refl).
Defined.
